(** * timg framebuffer: pixel store, colour parsing and alpha compositing

    A shallow embedding of [src/framebuffer.cc] (namespace [timg], class
    [Framebuffer]) together with the properties its specification states.

    Conventions of the embedding:
    - [uint32_t] and [int] values are integers of [Z]; unsigned arithmetic
      that can leave its range is reduced with [u32];
    - [rgba_t] is [uint32_t]; what a consumer of the raw pixel bytes sees is
      the object representation [mem_bytes], which depends on the byte order
      of the host, as do [htole32] and [le32toh];
    - the pixel array is a list indexed with stdpp's lookup and insert;
    - a failed [assert] is the outcome [Abort]. *)

From Stdlib Require Import ZArith Lia List Ascii String Bool.
From stdpp Require Import base tactics option list numbers pretty.
From coqutil Require Import Z.bitblast.

Local Open Scope Z_scope.

(** ** Machine integers and byte order *)

Definition u32 (x : Z) : Z := x mod 2 ^ 32.
Definition u8 (x : Z) : Z := x mod 2 ^ 8.

Definition is_u8 (x : Z) : Prop := 0 <= x <= 255.
Definition is_u32 (x : Z) : Prop := 0 <= x < 2 ^ 32.

(** Byte order of the host the code is compiled for. *)
Inductive byte_order : Set := LittleEndian | BigEndian.

(** The four bytes of a 32-bit value, least significant first. *)
Definition byte_n (v : Z) (n : Z) : Z := Z.land (Z.shiftr v (8 * n)) 255.

Definition bswap32 (v : Z) : Z :=
  Z.lor (Z.shiftl (byte_n v 0) 24)
    (Z.lor (Z.shiftl (byte_n v 1) 16)
       (Z.lor (Z.shiftl (byte_n v 2) 8) (byte_n v 3))).

(** [htole32] and [le32toh] of <endian.h>: the identity on a little-endian
    host, a byte swap on a big-endian one. *)
Definition htole32 (host : byte_order) (v : Z) : Z :=
  match host with LittleEndian => v | BigEndian => bswap32 v end.

Definition le32toh (host : byte_order) (v : Z) : Z :=
  match host with LittleEndian => v | BigEndian => bswap32 v end.

(** Object representation of a [uint32_t]: its bytes in increasing address
    order. *)
Definition mem_bytes (host : byte_order) (v : Z) : list Z :=
  match host with
  | LittleEndian => [byte_n v 0; byte_n v 1; byte_n v 2; byte_n v 3]
  | BigEndian => [byte_n v 3; byte_n v 2; byte_n v 1; byte_n v 0]
  end.

(** The channels of a stored pixel are its bytes in memory: R, G, B, A. *)
Definition chan (host : byte_order) (i : nat) (px : Z) : Z :=
  nth i (mem_bytes host px) 0.

Definition chan_r (host : byte_order) : Z -> Z := chan host 0.
Definition chan_g (host : byte_order) : Z -> Z := chan host 1.
Definition chan_b (host : byte_order) : Z -> Z := chan host 2.
Definition chan_a (host : byte_order) : Z -> Z := chan host 3.

(** ** Framebuffer::to_rgba

    The parameters are [uint8_t]: an argument of a wider type is converted,
    that is reduced modulo 256, at the call. *)
Definition to_rgba (host : byte_order) (r g b a : Z) : Z :=
  htole32 host
    (Z.lor (Z.shiftl (u8 r) 0)
       (Z.lor (Z.shiftl (u8 g) 8)
          (Z.lor (Z.shiftl (u8 b) 16) (Z.shiftl (u8 a) 24)))).

(** ** The pixel store *)

Record Framebuffer : Type := mkFramebuffer {
  width_ : Z;
  height_ : Z;
  pixels_ : list Z
}.

Definition width (fb : Framebuffer) : Z := width_ fb.
Definition height (fb : Framebuffer) : Z := height_ fb.

Definition INT_MAX : Z := 2 ^ 31 - 1.

(** What the constructor establishes: positive dimensions, an array of
    [width_ * height_] pixels, and a pixel count that an [int] holds. *)
Record fb_wf (fb : Framebuffer) : Prop := mk_fb_wf {
  wf_width : 0 < width_ fb;
  wf_height : 0 < height_ fb;
  wf_count : width_ fb * height_ fb <= INT_MAX;
  wf_length : Z.of_nat (length (pixels_ fb)) = width_ fb * height_ fb
}.

(** Outcome of an operation that contains an [assert]. *)
Inductive outcome (A : Type) : Type :=
| Ok (a : A)
| Abort.
Arguments Ok {A} a.
Arguments Abort {A}.

(** Framebuffer::Clear and the constructor. *)
Definition Clear (fb : Framebuffer) : Framebuffer :=
  mkFramebuffer (width_ fb) (height_ fb)
    (replicate (Z.to_nat (width_ fb * height_ fb)) 0).

Definition new_Framebuffer (w h : Z) : Framebuffer :=
  Clear (mkFramebuffer w h (replicate (Z.to_nat (w * h)) 0)).

(** Framebuffer::SetPixel *)
Definition SetPixel (fb : Framebuffer) (x y : Z) (value : Z) : Framebuffer :=
  if (x <? 0) || (x >=? width fb) || (y <? 0) || (y >=? height fb) then fb
  else mkFramebuffer (width_ fb) (height_ fb)
         (<[Z.to_nat (width_ fb * y + x) := value]> (pixels_ fb)).

(** Framebuffer::at.  The read of an element that the array does not have
    cannot happen in a well-formed store; it is given the value 0. *)
Definition at_ (fb : Framebuffer) (x y : Z) : outcome Z :=
  if (x >=? 0) && (x <? width fb) && (y >=? 0) && (y <? height fb)
  then Ok (default 0 (pixels_ fb !! Z.to_nat (width_ fb * y + x)))
  else Abort.

(** ** Single-precision arithmetic used by AlphaBlend

    [sqrtf] receives a [uint32_t] converted to [float] and its result is
    converted back to [uint32_t].  A non-negative finite binary32 number is
    kept as a pair: [f_mant * 2 ^ f_exp] with at most 24 significant bits.
    Conversions and the square root round to nearest (IEEE 754; ties to
    even where a tie can occur), the conversion to [uint32_t] truncates. *)

Record float32 : Set := mkFloat { f_mant : Z; f_exp : Z }.

(** (float) n for a [uint32_t] n. *)
Definition float_of_u32 (n : Z) : float32 :=
  if n <? 2 ^ 24 then mkFloat n 0
  else
    let sh := Z.log2 n - 23 in
    let q := n / 2 ^ sh in
    let r := n mod 2 ^ sh in
    let half := 2 ^ (sh - 1) in
    if (half <? r) || ((r =? half) && Z.odd q)
    then mkFloat (q + 1) sh
    else mkFloat q sh.

(** sqrtf on an integer-valued argument ([0 <= f_exp]): the significand of
    the root is the integer nearest to [sqrt (m * 2 ^ (e + 2 k))], where [k]
    scales the root into [2^23, 2^24).  The scaled radicand is an integer, so
    the root is never half-way between two integers. *)
Definition sqrtf (x : float32) : float32 :=
  if f_mant x =? 0 then mkFloat 0 0
  else
    let l := Z.log2 (f_mant x) + f_exp x in
    let k := 23 - l / 2 in
    let s := f_mant x * 2 ^ (f_exp x + 2 * k) in
    let m0 := Z.sqrt s in
    let m := if m0 * m0 + m0 <? s then m0 + 1 else m0 in
    mkFloat m (- k).

(** (uint32_t) x for a non-negative float in range. *)
Definition u32_of_float (x : float32) : Z :=
  if 0 <=? f_exp x then f_mant x * 2 ^ f_exp x
  else f_mant x / 2 ^ (- f_exp x).

(** ** AlphaBlend (static helper of the compositor) *)

(** One iteration of the channel loop: [out[i]]. *)
Definition blend_channel (fg bg alpha : Z) : Z :=
  u32_of_float
    (sqrtf
       (float_of_u32
          (u32 (u32 (u32 (fg * fg) * alpha) + u32 (bg * u32 (255 - alpha)))
           / 255))).

Definition AlphaBlend (host : byte_order) (bg : list Z) (c : Z) : Z :=
  let col := le32toh host c in
  let alpha := Z.shiftr c 24 in
  if alpha =? 255 then c
  else
    let fgc := [Z.land (Z.shiftr col 0) 255;
                Z.land (Z.shiftr col 8) 255;
                Z.land (Z.shiftr col 16) 255] in
    let out := fun i : nat => blend_channel (nth i fgc 0) (nth i bg 0) alpha in
    to_rgba host (out 0%nat) (out 1%nat) (out 2%nat) 255.

(** ** Framebuffer::AlphaComposeBackground *)

(** The squared channels of a colour that went through [le32toh]. *)
Definition linear_of (col : Z) : list Z :=
  [u32 (Z.land col 255 * Z.land col 255);
   u32 (Z.land (Z.shiftr col 8) 255 * Z.land (Z.shiftr col 8) 255);
   u32 (Z.land (Z.shiftr col 16) 255 * Z.land (Z.shiftr col 16) 255)].

(** The loop state is the array together with the cursor [pos]. *)
Definition blend_step (host : byte_order) (bg_choice : list (list Z))
    (y x : Z) (st : list Z * nat) : list Z * nat :=
  let '(px, pos) := st in
  (<[pos := AlphaBlend host (nth (Z.to_nat ((x + y) mod 2)) bg_choice [])
              (default 0 (px !! pos))]> px,
   S pos).

Definition row_loop (host : byte_order) (bg_choice : list (list Z))
    (w : Z) (st : list Z * nat) (y : Z) : list Z * nat :=
  fold_left (fun st x => blend_step host bg_choice y x st) (seqZ 0 w) st.

Definition compose_loop (host : byte_order) (bg_choice : list (list Z))
    (w h : Z) (px : list Z) : list Z * nat :=
  fold_left (row_loop host bg_choice w) (seqZ 0 h) (px, 0%nat).

(** The table [bg_choice] once the pattern was looked at. *)
Definition bg_choice (host : byte_order) (bgcolor pattern_col : Z)
    : list (list Z) :=
  let linear_bg := linear_of (le32toh host bgcolor) in
  let pcol := le32toh host pattern_col in
  if Z.shiftr pcol 24 =? 255
  then [linear_bg; linear_of pcol]
  else [linear_bg; linear_bg].

Definition AlphaComposeBackground (host : byte_order) (fb : Framebuffer)
    (bgcolor pattern_col : Z) : outcome Framebuffer :=
  let bcol := le32toh host bgcolor in
  let bg_alpha := Z.shiftr bcol 24 in
  if bg_alpha =? 0 then Ok fb
  else if negb (bg_alpha =? 255) then Abort
  else
    Ok (mkFramebuffer (width_ fb) (height_ fb)
          (fst (compose_loop host (bg_choice host bgcolor pattern_col)
                  (width_ fb) (height_ fb) (pixels_ fb)))).

(** ** The compositor in the words of the specification

    The backdrop of the pixel at (x, y), the blend of one channel, and the
    bytes of a composited pixel. *)
Definition spec_backdrop (host : byte_order) (backgroundPixel patternPixel : Z)
    (x y : Z) : Z :=
  if chan_a host patternPixel =? 255
  then (if Z.even (x + y) then backgroundPixel else patternPixel)
  else backgroundPixel.

Definition spec_blend (srcChannel backdropChannel a : Z) : Z :=
  Z.sqrt
    ((srcChannel * srcChannel * a
      + backdropChannel * backdropChannel * (255 - a)) / 255).

Definition spec_composited (host : byte_order) (backdrop c : Z) : list Z :=
  [spec_blend (chan_r host c) (chan_r host backdrop) (chan_a host c);
   spec_blend (chan_g host c) (chan_g host backdrop) (chan_a host c);
   spec_blend (chan_b host c) (chan_b host backdrop) (chan_a host c);
   255].

(** ** Characters and strings of the C library *)

Definition code (c : ascii) : Z := Z.of_N (N_of_ascii c).

Definition isspace (c : ascii) : bool :=
  (code c =? 32) || ((9 <=? code c) && (code c <=? 13)).

Definition isdigit (c : ascii) : bool := (48 <=? code c) && (code c <=? 57).

Definition isxdigit (c : ascii) : bool :=
  isdigit c
  || ((65 <=? code c) && (code c <=? 70))
  || ((97 <=? code c) && (code c <=? 102)).

Definition isalpha (c : ascii) : bool :=
  ((65 <=? code c) && (code c <=? 90)) || ((97 <=? code c) && (code c <=? 122)).

(** tolower, as a character code. *)
Definition tolower (c : ascii) : Z :=
  if (65 <=? code c) && (code c <=? 90) then code c + 32 else code c.

(** Value of a digit in bases up to 16. *)
Definition digit_val (c : ascii) : Z :=
  if isdigit c then code c - 48
  else if (97 <=? code c) && (code c <=? 102) then code c - 87
  else code c - 55.

(** strcasecmp on the characters before the terminating NUL. *)
Fixpoint strcasecmp (s1 s2 : list ascii) : Z :=
  match s1, s2 with
  | [], [] => 0
  | [], c2 :: _ => 0 - tolower c2
  | c1 :: _, [] => tolower c1
  | c1 :: t1, c2 :: t2 =>
      if tolower c1 =? tolower c2 then strcasecmp t1 t2
      else tolower c1 - tolower c2
  end.

(** ** sscanf

    The fragment of the C library's formatted input that the three formats
    of ParseColor use: ordinary characters, white space, and the conversions
    [%d] and [%x] with an optional maximum field width.  The conversions
    follow the GNU C library on a host with 64-bit [long]: the digits are
    collected first and converted by [strtol] ([%d]) or [strtoul] ([%x]),
    which saturate, and the result is stored through an [int] or
    [unsigned] pointer, which keeps its low 32 bits. *)

Inductive conv : Set := ConvD | ConvX.

Inductive directive : Set :=
| DSpace
| DLit (c : ascii)
| DConv (width : option nat) (k : conv)
| DBad.

(** Reading the format.  [st] is [None] outside a conversion specification
    and [Some w] after [%] and the digits of the width read so far.  A width
    of 0 means no limit.  [DBad] stands for a specification outside the
    fragment; the formats of this file have none. *)
Fixpoint parse_format (st : option nat) (f : list ascii) : list directive :=
  match f with
  | [] => match st with None => [] | Some _ => [DBad] end
  | c :: f' =>
      match st with
      | None =>
          if Ascii.eqb c "%" then parse_format (Some 0%nat) f'
          else if isspace c then DSpace :: parse_format None f'
          else DLit c :: parse_format None f'
      | Some w =>
          if isdigit c
          then parse_format (Some (w * 10 + Z.to_nat (digit_val c))%nat) f'
          else
            let width := match w with O => None | _ => Some w end in
            if Ascii.eqb c "d" then DConv width ConvD :: parse_format None f'
            else if Ascii.eqb c "x" then DConv width ConvX :: parse_format None f'
            else [DBad]
      end
  end.

Fixpoint skip_space (s : list ascii) : list ascii :=
  match s with
  | c :: s' => if isspace c then skip_space s' else s
  | [] => []
  end.

Definition width_left (w : option nat) : bool :=
  match w with Some O => false | _ => true end.

Definition width_dec (w : option nat) : option nat :=
  match w with Some (S n) => Some n | _ => w end.

(** The digit loop: the digits accepted, as their value, how many there
    were, and the input left. *)
Fixpoint scan_digits (base : Z) (w : option nat) (acc : Z) (n : nat)
    (s : list ascii) : Z * nat * list ascii :=
  match s with
  | [] => (acc, n, [])
  | c :: s' =>
      if width_left w
         && (if base =? 16 then isxdigit c else isdigit c)
      then scan_digits base (width_dec w) (acc * base + digit_val c) (S n) s'
      else (acc, n, s)
  end.

Definition LONG_MAX : Z := 2 ^ 63 - 1.
Definition LONG_MIN : Z := - 2 ^ 63.
Definition ULONG_MAX : Z := 2 ^ 64 - 1.

(** strtol and strtoul on a sign and a magnitude. *)
Definition strtol (neg : bool) (mag : Z) : Z :=
  let v := if neg then - mag else mag in
  Z.max LONG_MIN (Z.min LONG_MAX v).

Definition strtoul (neg : bool) (mag : Z) : Z :=
  if ULONG_MAX <? mag then ULONG_MAX
  else if neg then (- mag) mod 2 ^ 64 else mag.

Inductive item : Set :=
| ItemOk (v : Z) (rest : list ascii)
| ItemFail
| ItemEOF.

(** One numeric conversion, after the white space before it was skipped:
    an optional sign, a leading 0 (and, for base 16, the x after it), then
    the digit loop.  The conversion fails when no digit was collected. *)
Definition scan_int (k : conv) (w : option nat) (s : list ascii) : item :=
  match s with
  | [] => ItemEOF
  | c :: s1 =>
      let base := match k with ConvD => 10 | ConvX => 16 end in
      let signed := Ascii.eqb c "-" || Ascii.eqb c "+" in
      let neg := Ascii.eqb c "-" in
      let w1 := if signed then width_dec w else w in
      let s2 := if signed then s1 else s in
      let '(zero, w3, s3) :=
        match s2 with
        | c0 :: t =>
            if width_left w1 && Ascii.eqb c0 "0" then
              match t with
              | cx :: t' =>
                  if width_left (width_dec w1) && (tolower cx =? 120)
                     && (base =? 16)
                  then (1%nat, width_dec (width_dec w1), t')
                  else (1%nat, width_dec w1, t)
              | [] => (1%nat, width_dec w1, t)
              end
            else (0%nat, w1, s2)
        | [] => (0%nat, w1, s2)
        end in
      let '(mag, n, rest) := scan_digits base w3 0 zero s3 in
      match n with
      | O => ItemFail
      | _ =>
          ItemOk (u32 (match k with
                       | ConvD => strtol neg mag
                       | ConvX => strtoul neg mag
                       end)) rest
      end
  end.

Inductive scan_stop : Set := Completed | MatchFailure | InputFailure.

(** The directives in turn; [args] are the values assigned so far. *)
Fixpoint scan (ds : list directive) (s : list ascii) (args : list Z)
    : list Z * scan_stop :=
  match ds with
  | [] => (args, Completed)
  | DSpace :: ds' => scan ds' (skip_space s) args
  | DLit fc :: ds' =>
      match s with
      | [] => (args, InputFailure)
      | c :: s' =>
          if Ascii.eqb c fc then scan ds' s' args else (args, MatchFailure)
      end
  | DConv w k :: ds' =>
      match scan_int k w (skip_space s) with
      | ItemOk v rest => scan ds' rest (args ++ [v])
      | ItemFail => (args, MatchFailure)
      | ItemEOF => (args, InputFailure)
      end
  | DBad :: _ => (args, MatchFailure)
  end.

Definition EOF : Z := -1.

(** sscanf: the return value and the values assigned, in order. *)
Definition sscanf (input format : string) : Z * list Z :=
  let '(args, stop) :=
    scan (parse_format None (list_ascii_of_string format))
      (list_ascii_of_string input) [] in
  match stop, args with
  | InputFailure, [] => (EOF, [])
  | _, _ => (Z.of_nat (length args), args)
  end.

(** ** Framebuffer::ParseColor *)

(** An entry of the table [html_colors] of html-colors.inc.  The table is
    not part of the sources at hand: the functions take it as an argument. *)
Record html_color : Set := mkColor { name : string; translation : string }.

(** The loop over [html_colors]: the translation of the first entry whose
    name is the text up to case, or the text itself. *)
Fixpoint named_color (html_colors : list html_color) (color : string)
    : string :=
  match html_colors with
  | [] => color
  | c :: cs =>
      if strcasecmp (list_ascii_of_string color) (list_ascii_of_string (name c))
         =? 0
      then translation c
      else named_color cs color
  end.

(** [sscanf (...) == 3], with the three values it then assigned. *)
Definition scan3 (color format : string) : option (Z * Z * Z) :=
  match sscanf color format with
  | (3, [r; g; b]) => Some (r, g, b)
  | _ => None
  end.

(** The result is the pixel and what was written to stderr, if anything. *)
Definition ParseColor (host : byte_order) (html_colors : list html_color)
    (color : option string) : Z * option string :=
  match color with
  | None => (to_rgba host 0 0 0 0, None)
  | Some color0 =>
      let color := named_color html_colors color0 in
      match
        match scan3 color "#%02x%02x%02x" with
        | Some v => Some v
        | None =>
            match scan3 color "rgb(%d, %d, %d)" with
            | Some v => Some v
            | None => scan3 color "rgb(0x%x, 0x%x, 0x%x)"
            end
        end
      with
      | Some (r, g, b) => (to_rgba host r g b 255, None)
      | None =>
          (to_rgba host 0 0 0 0,
           Some ("Couldn't parse color '" ++ color ++ "'" ++ String "010" "")%string)
      end
  end.

(** Modelled from the spec: html-colors.inc, the named colour table
    (case-insensitive name to canonical [#rrggbb] text), is missing from the
    sources.  These entries of it serve as a concrete table where one is
    needed. *)
Definition html_colors_sample : list html_color :=
  [mkColor "black" "#000000"; mkColor "blue" "#0000ff";
   mkColor "lime" "#00ff00"; mkColor "red" "#ff0000";
   mkColor "white" "#ffffff"].

(** A table whose names are non-empty words of letters. *)
Definition name_ok (c : html_color) : Prop :=
  name c <> EmptyString /\
  Forall (fun ch => isalpha ch = true) (list_ascii_of_string (name c)).

Definition table_ok (html_colors : list html_color) : Prop :=
  Forall name_ok html_colors.

(** The value that [to_rgba] hands to [htole32]. *)
Definition packed (r g b a : Z) : Z :=
  Z.lor (Z.shiftl (u8 r) 0)
    (Z.lor (Z.shiftl (u8 g) 8)
       (Z.lor (Z.shiftl (u8 b) 16) (Z.shiftl (u8 a) 24))).

(** What the compositor's loop stores in place of the pixel [c] at (x, y). *)
Definition blended (host : byte_order) (choice : list (list Z)) (y x c : Z)
    : Z :=
  AlphaBlend host (nth (Z.to_nat ((x + y) mod 2)) choice []) c.

(** ** Framebuffer::row_data

    A row pointer is null, an address [(uint8_t* )pixels_ + off], or the
    indeterminate content of a slot of [new uint8_t*[n]] that nothing was
    stored to yet.  The member [row_data_] is an optional table: [None] is
    the null pointer, which is what [if (!row_data_)] tests. *)
Inductive row_ptr : Set :=
| Null
| PixelsAt (off : Z)
| Indeterminate.

Definition sizeof_rgba_t : Z := 4.

(** The loop [for (int i = 0; i < height_; ++i) row_data_[i] = ...]. *)
Definition fill_rows (w h : Z) (table : list row_ptr) : list row_ptr :=
  fold_left
    (fun t i => <[Z.to_nat i := PixelsAt (i * w * sizeof_rgba_t)]> t)
    (seqZ 0 h) table.

(** The call returns the new value of the member and the table it hands
    out. *)
Definition row_data (fb : Framebuffer) (row_data_ : option (list row_ptr))
    : option (list row_ptr) * list row_ptr :=
  match row_data_ with
  | None =>
      let fresh := replicate (Z.to_nat (height_ fb + 1)) Indeterminate in
      let rows := fill_rows (width_ fb) (height_ fb) fresh in
      let table := <[Z.to_nat (height_ fb) := Null]> rows in
      (Some table, table)
  | Some table => (Some table, table)
  end.

(** The member [strides_] as the constructor sets it. *)
Definition strides (fb : Framebuffer) : list Z :=
  [sizeof_rgba_t * width_ fb; 0].

(** Byte offset of [pixels_[i]] from [pixels_]. *)
Definition pixel_offset (i : Z) : Z := sizeof_rgba_t * i.

(** ** Texts handed to ParseColor

    The decimal value of a string of digits, the value of two hexadecimal
    digits, a text up to case, and the shapes of text that the statements
    about ParseColor speak of. *)
Definition dec_value (ds : list ascii) : Z :=
  fold_left (fun acc c => acc * 10 + digit_val c) ds 0.

Definition hex2 (h l : ascii) : Z := 16 * digit_val h + digit_val l.

Definition lower (s : string) : list Z :=
  map tolower (list_ascii_of_string s).

(** A C string holds no NUL before its end. *)
Definition c_string (s : string) : Prop :=
  Forall (fun c => code c <> 0) (list_ascii_of_string s).

Definition blank (s : string) : Prop :=
  Forall (fun c => isspace c = true) (list_ascii_of_string s).

Definition no_digit_ahead (s : string) : Prop :=
  match s with
  | EmptyString => True
  | String c _ => isdigit c = false
  end.

Definition no_xdigit_ahead (s : string) : Prop :=
  match s with
  | EmptyString => True
  | String c _ => isxdigit c = false
  end.

(** * Properties *)

(** ** Bytes of packed values *)

Lemma u8_small x : is_u8 x -> u8 x = x.
Proof. unfold is_u8, u8. intros H. apply Z.mod_small. lia. Qed.

Lemma u8_range x : is_u8 (u8 x).
Proof. unfold is_u8, u8. pose proof (Z.mod_pos_bound x (2 ^ 8)). lia. Qed.

Lemma u8_land x : u8 x = Z.land x (Z.ones 8).
Proof. unfold u8. now rewrite Z.land_ones by lia. Qed.

Ltac byte_bits :=
  unfold packed, bswap32, byte_n;
  rewrite ?u8_land; change 255 with (Z.ones 8); simpl Z.mul;
  Z.bitblast.

Lemma byte_0_packed r g b a : byte_n (packed r g b a) 0 = u8 r.
Proof. byte_bits. Qed.

Lemma byte_1_packed r g b a : byte_n (packed r g b a) 1 = u8 g.
Proof. byte_bits. Qed.

Lemma byte_2_packed r g b a : byte_n (packed r g b a) 2 = u8 b.
Proof. byte_bits. Qed.

Lemma byte_3_packed r g b a : byte_n (packed r g b a) 3 = u8 a.
Proof. byte_bits. Qed.

Lemma byte_0_bswap v : byte_n (bswap32 v) 0 = byte_n v 3.
Proof. byte_bits. Qed.

Lemma byte_1_bswap v : byte_n (bswap32 v) 1 = byte_n v 2.
Proof. byte_bits. Qed.

Lemma byte_2_bswap v : byte_n (bswap32 v) 2 = byte_n v 1.
Proof. byte_bits. Qed.

Lemma byte_3_bswap v : byte_n (bswap32 v) 3 = byte_n v 0.
Proof. byte_bits. Qed.

Lemma land_255 x : Z.land x 255 = x mod 2 ^ 8.
Proof. change 255 with (Z.ones 8). now rewrite Z.land_ones by lia. Qed.

Lemma byte_n_range v n : is_u8 (byte_n v n).
Proof.
  unfold byte_n, is_u8. rewrite land_255.
  generalize (Z.shiftr v (8 * n)). intros w.
  pose proof (Z.mod_pos_bound w (2 ^ 8)). lia.
Qed.

Lemma shiftr_24_byte v : is_u32 v -> Z.shiftr v 24 = byte_n v 3.
Proof.
  unfold is_u32, byte_n. intros H. change (8 * 3) with 24.
  rewrite land_255, Z.shiftr_div_pow2 by lia.
  symmetry. apply Z.mod_small. split.
  - apply Z.div_pos; lia.
  - apply Z.div_lt_upper_bound; lia.
Qed.

Lemma lor_u32 a b : is_u32 a -> is_u32 b -> is_u32 (Z.lor a b).
Proof.
  unfold is_u32. intros Ha Hb.
  assert (H0 : 0 <= Z.lor a b) by (apply Z.lor_nonneg; lia).
  split; [assumption|].
  destruct (Z.eq_dec (Z.lor a b) 0) as [->|Hne]; [lia|].
  apply Z.log2_lt_pow2; [lia|].
  rewrite Z.log2_lor by lia.
  assert (Hl : forall x, 0 <= x < 2 ^ 32 -> Z.log2 x < 32).
  { intros x Hx. destruct (Z.eq_dec x 0) as [->|]; [reflexivity|].
    apply Z.log2_lt_pow2; lia. }
  pose proof (Hl a Ha). pose proof (Hl b Hb). lia.
Qed.

Lemma shiftl_u8_u32 x k : is_u8 x -> 0 <= k <= 24 -> is_u32 (Z.shiftl x k).
Proof.
  unfold is_u8, is_u32. intros Hx Hk. rewrite Z.shiftl_mul_pow2 by lia.
  assert (0 < 2 ^ k) by (apply Z.pow_pos_nonneg; lia).
  assert (2 ^ k <= 2 ^ 24) by (apply Z.pow_le_mono_r; lia).
  change (2 ^ 32) with (256 * 2 ^ 24). nia.
Qed.

Lemma packed_u32 r g b a : is_u32 (packed r g b a).
Proof.
  unfold packed.
  repeat apply lor_u32; apply shiftl_u8_u32; try apply u8_range; lia.
Qed.

Lemma bswap32_u32 v : is_u32 (bswap32 v).
Proof.
  unfold bswap32. rewrite <- (Z.shiftl_0_r (byte_n v 3)).
  repeat apply lor_u32; apply shiftl_u8_u32; try apply byte_n_range; lia.
Qed.

Lemma to_rgba_u32 host r g b a : is_u32 (to_rgba host r g b a).
Proof.
  unfold to_rgba, htole32. fold (packed r g b a).
  destruct host; [apply packed_u32 | apply bswap32_u32].
Qed.

(** The bytes in memory of a packed pixel, whatever the host. *)
Lemma mem_bytes_to_rgba host r g b a :
  mem_bytes host (to_rgba host r g b a) = [u8 r; u8 g; u8 b; u8 a].
Proof.
  unfold to_rgba, htole32, mem_bytes. fold (packed r g b a).
  destruct host.
  - now rewrite byte_0_packed, byte_1_packed, byte_2_packed, byte_3_packed.
  - rewrite byte_0_bswap, byte_1_bswap, byte_2_bswap, byte_3_bswap.
    now rewrite byte_0_packed, byte_1_packed, byte_2_packed, byte_3_packed.
Qed.

(** [le32toh] brings the channels to fixed positions of the value. *)
Lemma le32toh_bytes host v :
  [byte_n (le32toh host v) 0; byte_n (le32toh host v) 1;
   byte_n (le32toh host v) 2; byte_n (le32toh host v) 3]
  = mem_bytes host v.
Proof.
  destruct host; simpl; [reflexivity|].
  now rewrite byte_0_bswap, byte_1_bswap, byte_2_bswap, byte_3_bswap.
Qed.

Lemma le32toh_u32 host v : is_u32 v -> is_u32 (le32toh host v).
Proof. destruct host; simpl; [auto | intros _; apply bswap32_u32]. Qed.

Lemma le32toh_alpha host v :
  is_u32 v -> Z.shiftr (le32toh host v) 24 = chan_a host v.
Proof.
  intros H. rewrite shiftr_24_byte by now apply le32toh_u32.
  unfold chan_a, chan. rewrite <- le32toh_bytes. reflexivity.
Qed.

(** ** The pixel store *)

(** C6: for channel values r, g, b, a in [0,255], PackPixel ([to_rgba])
    yields a 32-bit value whose bytes in memory are r, g, b, a in this
    order, on a little-endian and on a big-endian host alike. *)
Theorem to_rgba_memory_order (host : byte_order) (r g b a : Z) :
  is_u8 r -> is_u8 g -> is_u8 b -> is_u8 a ->
  is_u32 (to_rgba host r g b a) /\
  mem_bytes host (to_rgba host r g b a) = [r; g; b; a].
Proof.
  intros Hr Hg Hb Ha. split; [apply to_rgba_u32|].
  rewrite mem_bytes_to_rgba. now rewrite !u8_small.
Qed.

Lemma to_rgba_memory_order_witness :
  (is_u8 18 /\ is_u8 52 /\ is_u8 86 /\ is_u8 120) /\
  is_u32 (to_rgba BigEndian 18 52 86 120) /\
  mem_bytes BigEndian (to_rgba BigEndian 18 52 86 120) = [18; 52; 86; 120].
Proof.
  split; [unfold is_u8; lia|].
  apply (to_rgba_memory_order BigEndian 18 52 86 120); unfold is_u8; lia.
Defined.

Lemma index_in_range fb x y :
  fb_wf fb -> 0 <= x < width fb -> 0 <= y < height fb ->
  (Z.to_nat (width_ fb * y + x) < length (pixels_ fb))%nat.
Proof.
  unfold width, height. intros [Hw Hh _ Hlen] Hx Hy.
  apply Nat2Z.inj_lt. rewrite Hlen, Z2Nat.id by nia. nia.
Qed.

Lemma SetPixel_wf fb x y p : fb_wf fb -> fb_wf (SetPixel fb x y p).
Proof.
  intros Hwf. unfold SetPixel.
  destruct ((x <? 0) || (x >=? width fb) || (y <? 0) || (y >=? height fb));
    [assumption|].
  destruct Hwf. constructor; simpl; try assumption.
  now rewrite length_insert.
Qed.

(** C7: within the bounds, reading a pixel that was just written gives the
    value written. *)
Theorem at_SetPixel (fb : Framebuffer) (x y p : Z) :
  fb_wf fb -> 0 <= x < width fb -> 0 <= y < height fb ->
  at_ (SetPixel fb x y p) x y = Ok p.
Proof.
  intros Hwf Hx Hy. pose proof (index_in_range fb x y Hwf Hx Hy) as Hi.
  unfold at_, SetPixel, width, height in *.
  replace ((x <? 0) || (x >=? width_ fb) || (y <? 0) || (y >=? height_ fb))
    with false by (symmetry; rewrite !orb_false_iff; lia).
  simpl.
  replace ((x >=? 0) && (x <? width_ fb) && (y >=? 0) && (y <? height_ fb))
    with true by (symmetry; rewrite !andb_true_iff; lia).
  now rewrite list_lookup_insert_eq.
Qed.

Lemma at_SetPixel_witness :
  (fb_wf (new_Framebuffer 3 2) /\ 0 <= 2 < width (new_Framebuffer 3 2)
   /\ 0 <= 1 < height (new_Framebuffer 3 2)) /\
  at_ (SetPixel (new_Framebuffer 3 2) 2 1 4278190335) 2 1 = Ok 4278190335.
Proof.
  assert (Hwf : fb_wf (new_Framebuffer 3 2))
    by (constructor; simpl; unfold INT_MAX; lia).
  split; [repeat split; simpl; try lia; apply Hwf|].
  apply (at_SetPixel (new_Framebuffer 3 2) 2 1 4278190335 Hwf);
    simpl; lia.
Defined.

(** C8: outside [0,width) x [0,height) a write is dropped: the store is
    unchanged, hence so is every pixel read from it, and SetPixel has no
    other outcome than the store. *)
Theorem SetPixel_out_of_range (fb : Framebuffer) (x y p : Z) :
  ~ (0 <= x < width fb /\ 0 <= y < height fb) ->
  SetPixel fb x y p = fb /\
  forall x' y', at_ (SetPixel fb x y p) x' y' = at_ fb x' y'.
Proof.
  intros Hout.
  assert (H : SetPixel fb x y p = fb).
  { unfold SetPixel.
    replace ((x <? 0) || (x >=? width fb) || (y <? 0) || (y >=? height fb))
      with true; [reflexivity|].
    symmetry. rewrite !orb_true_iff. lia. }
  split; [assumption|]. intros x' y'. now rewrite H.
Qed.

Lemma SetPixel_out_of_range_witness :
  ~ (0 <= 3 < width (new_Framebuffer 3 2)
     /\ 0 <= 1 < height (new_Framebuffer 3 2)) /\
  SetPixel (new_Framebuffer 3 2) 3 1 4278190335 = new_Framebuffer 3 2 /\
  forall x' y',
    at_ (SetPixel (new_Framebuffer 3 2) 3 1 4278190335) x' y'
    = at_ (new_Framebuffer 3 2) x' y'.
Proof.
  assert (H : ~ (0 <= 3 < width (new_Framebuffer 3 2)
                 /\ 0 <= 1 < height (new_Framebuffer 3 2)))
    by (simpl; lia).
  split; [exact H|].
  apply (SetPixel_out_of_range (new_Framebuffer 3 2) 3 1 4278190335 H).
Defined.

(** ** The compositor: the checks on the background *)

(** C5: with a background whose alpha is 0 the call returns at once and
    the store is the one before the call, for every store and pattern. *)
Theorem AlphaComposeBackground_transparent_bg
    (host : byte_order) (fb : Framebuffer) (bgcolor pattern_col : Z) :
  is_u32 bgcolor -> chan_a host bgcolor = 0 ->
  AlphaComposeBackground host fb bgcolor pattern_col = Ok fb.
Proof.
  intros Hu Ha. unfold AlphaComposeBackground.
  rewrite le32toh_alpha by assumption. now rewrite Ha.
Qed.

Lemma AlphaComposeBackground_transparent_bg_witness :
  (is_u32 (to_rgba BigEndian 10 20 30 0)
   /\ chan_a BigEndian (to_rgba BigEndian 10 20 30 0) = 0) /\
  AlphaComposeBackground BigEndian (mkFramebuffer 2 1 [7; 4278190335])
    (to_rgba BigEndian 10 20 30 0) (to_rgba BigEndian 0 0 0 255)
  = Ok (mkFramebuffer 2 1 [7; 4278190335]).
Proof.
  assert (H1 : is_u32 (to_rgba BigEndian 10 20 30 0))
    by (vm_compute; split; [discriminate | reflexivity]).
  assert (H2 : chan_a BigEndian (to_rgba BigEndian 10 20 30 0) = 0)
    by reflexivity.
  split; [split; assumption|].
  apply (AlphaComposeBackground_transparent_bg BigEndian
           (mkFramebuffer 2 1 [7; 4278190335]) (to_rgba BigEndian 10 20 30 0)
           (to_rgba BigEndian 0 0 0 255) H1 H2).
Defined.

(** C9: a background whose alpha is neither 0 nor 255 fails the assertion:
    the call aborts there and never reaches the blending loop. *)
Theorem AlphaComposeBackground_translucent_bg
    (host : byte_order) (fb : Framebuffer) (bgcolor pattern_col : Z) :
  is_u32 bgcolor -> chan_a host bgcolor <> 0 -> chan_a host bgcolor <> 255 ->
  AlphaComposeBackground host fb bgcolor pattern_col = Abort.
Proof.
  intros Hu H0 H255. unfold AlphaComposeBackground.
  rewrite le32toh_alpha by assumption.
  destruct (Z.eqb_spec (chan_a host bgcolor) 0); [contradiction|].
  destruct (Z.eqb_spec (chan_a host bgcolor) 255); [contradiction|].
  reflexivity.
Qed.

Lemma AlphaComposeBackground_translucent_bg_witness :
  (is_u32 (to_rgba LittleEndian 10 20 30 128)
   /\ chan_a LittleEndian (to_rgba LittleEndian 10 20 30 128) <> 0
   /\ chan_a LittleEndian (to_rgba LittleEndian 10 20 30 128) <> 255) /\
  AlphaComposeBackground LittleEndian (mkFramebuffer 2 1 [7; 4278190335])
    (to_rgba LittleEndian 10 20 30 128) (to_rgba LittleEndian 0 0 0 255)
  = Abort.
Proof.
  assert (H1 : is_u32 (to_rgba LittleEndian 10 20 30 128))
    by (vm_compute; split; [discriminate | reflexivity]).
  assert (H2 : chan_a LittleEndian (to_rgba LittleEndian 10 20 30 128) <> 0)
    by (vm_compute; discriminate).
  assert (H3 : chan_a LittleEndian (to_rgba LittleEndian 10 20 30 128) <> 255)
    by (vm_compute; discriminate).
  split; [exact (conj H1 (conj H2 H3))|].
  apply (AlphaComposeBackground_translucent_bg LittleEndian
           (mkFramebuffer 2 1 [7; 4278190335])
           (to_rgba LittleEndian 10 20 30 128)
           (to_rgba LittleEndian 0 0 0 255) H1 H2 H3).
Defined.

(** ** The compositor: the loop over the pixels *)

Section Loop.
Variable host : byte_order.
Variable ch : list (list Z).

Lemma row_loop_spec (y : Z) (n : nat) :
  forall (x0 : Z) (px : list Z) (pos : nat),
    (pos + n <= length px)%nat ->
    exists px',
      fold_left (fun st x => blend_step host ch y x st)
        (seqZ x0 (Z.of_nat n)) (px, pos) = (px', (pos + n)%nat)
      /\ length px' = length px
      /\ (forall i c, (i < n)%nat -> px !! (pos + i)%nat = Some c ->
            px' !! (pos + i)%nat = Some (blended host ch y (x0 + Z.of_nat i) c))
      /\ (forall i, ~ (pos <= i < pos + n)%nat -> px' !! i = px !! i).
Proof.
  induction n as [|n IH]; intros x0 px pos Hlen.
  - exists px. simpl. rewrite Nat.add_0_r. repeat split; intros; auto; lia.
  - rewrite seqZ_cons by lia.
    replace (Z.pred (Z.of_nat (S n))) with (Z.of_nat n) by lia.
    simpl fold_left.
    destruct (lookup_lt_is_Some_2 px pos ltac:(lia)) as [c0 Hc0].
    rewrite Hc0. simpl default.
    set (px1 := <[pos := _]> px).
    destruct (IH (Z.succ x0) px1 (S pos)) as (px' & Hfold & Hl & Hin & Hout).
    { unfold px1. rewrite length_insert. lia. }
    exists px'. split; [rewrite Hfold; f_equal; lia|].
    split; [rewrite Hl; apply length_insert|]. split.
    + intros i c Hi Hc. destruct i as [|i].
      * rewrite Nat.add_0_r in *. rewrite Hout by lia.
        unfold px1. rewrite list_lookup_insert_eq by lia.
        rewrite Hc0 in Hc. injection Hc as <-.
        unfold blended. now rewrite Z.add_0_r.
      * replace (pos + S i)%nat with (S pos + i)%nat in * by lia.
        replace (x0 + Z.of_nat (S i)) with (Z.succ x0 + Z.of_nat i) by lia.
        apply Hin; [lia|].
        unfold px1. rewrite list_lookup_insert_ne by lia. assumption.
    + intros i Hi. rewrite Hout by lia.
      unfold px1. apply list_lookup_insert_ne. lia.
Qed.

Lemma compose_rows_spec (wn : nat) (m : nat) :
  forall (y0 : Z) (px : list Z) (pos : nat),
    (pos + m * wn <= length px)%nat ->
    exists px',
      fold_left (row_loop host ch (Z.of_nat wn)) (seqZ y0 (Z.of_nat m))
        (px, pos) = (px', (pos + m * wn)%nat)
      /\ length px' = length px
      /\ (forall x y c, (x < wn)%nat -> (y < m)%nat ->
            px !! (pos + (y * wn + x))%nat = Some c ->
            px' !! (pos + (y * wn + x))%nat
            = Some (blended host ch (y0 + Z.of_nat y) (Z.of_nat x) c))
      /\ (forall i, ~ (pos <= i < pos + m * wn)%nat -> px' !! i = px !! i).
Proof.
  induction m as [|m IH]; intros y0 px pos Hlen.
  - exists px. simpl. rewrite Nat.add_0_r. repeat split; intros; auto; lia.
  - rewrite seqZ_cons by lia.
    replace (Z.pred (Z.of_nat (S m))) with (Z.of_nat m) by lia.
    simpl fold_left. unfold row_loop at 2.
    destruct (row_loop_spec y0 wn 0 px pos ltac:(lia))
      as (px1 & Hrow & Hl1 & Hin1 & Hout1).
    rewrite Hrow.
    destruct (IH (Z.succ y0) px1 (pos + wn)%nat ltac:(lia))
      as (px' & Hfold & Hl & Hin & Hout).
    exists px'. split; [rewrite Hfold; f_equal; lia|].
    split; [lia|]. split.
    + intros x y c Hx Hy Hc. destruct y as [|y].
      * simpl in *. rewrite Hout by lia.
        rewrite Z.add_0_r. rewrite <- (Z.add_0_l (Z.of_nat x)).
        now apply Hin1.
      * replace (pos + (S y * wn + x))%nat
          with (pos + wn + (y * wn + x))%nat in * by lia.
        replace (y0 + Z.of_nat (S y)) with (Z.succ y0 + Z.of_nat y) by lia.
        apply Hin; [lia | lia|].
        rewrite Hout1 by lia. assumption.
    + intros i Hi. rewrite Hout by lia. apply Hout1. lia.
Qed.
End Loop.

(** ** The compositor: one pixel *)

Lemma square_lt a b : 0 <= a -> 0 <= b -> a * a < b * b -> a < b.
Proof. nia. Qed.

Lemma sqrtf_exact n :
  0 <= n < 2 ^ 24 -> u32_of_float (sqrtf (float_of_u32 n)) = Z.sqrt n.
Proof.
  intros Hn. unfold float_of_u32.
  replace (n <? 2 ^ 24) with true by (symmetry; apply Z.ltb_lt; lia).
  destruct (Z.eq_dec n 0) as [->|Hpos]; [reflexivity|].
  unfold sqrtf. simpl f_mant. simpl f_exp.
  replace (n =? 0) with false by (symmetry; apply Z.eqb_neq; lia).
  rewrite Z.add_0_r, Z.add_0_l.
  set (l := Z.log2 n). set (h := l / 2). set (k := 23 - h).
  assert (Hl : 0 <= l < 24).
  { split; [apply Z.log2_nonneg | apply Z.log2_lt_pow2; lia]. }
  assert (Hh : 0 <= h <= 11 /\ l < 2 * h + 2).
  { unfold h. pose proof (Z.div_mod l 2). pose proof (Z.mod_pos_bound l 2). lia. }
  assert (Hk : 12 <= k <= 23) by (unfold k; lia).
  set (P := 2 ^ k).
  assert (HP : 0 < P) by (apply Z.pow_pos_nonneg; lia).
  replace (2 ^ (2 * k)) with (P * P)
    by (unfold P; rewrite <- Z.pow_add_r by lia; f_equal; lia).
  set (s := n * (P * P)).
  set (r := Z.sqrt n).
  pose proof (Z.sqrt_spec n ltac:(lia)) as Hr. cbv zeta in Hr. fold r in Hr.
  assert (Hr0 : 0 <= r) by apply Z.sqrt_nonneg.
  assert (Hs0 : 0 <= s) by (unfold s; nia).
  pose proof (Z.sqrt_spec s Hs0) as Hm0. cbv zeta in Hm0.
  pose proof (Z.sqrt_nonneg s) as Hm00.
  set (m0 := Z.sqrt s) in *.
  assert (HrP : r + 1 <= P).
  { assert (Hn2 : n < 2 ^ (h + 1) * 2 ^ (h + 1)).
    { rewrite <- Z.pow_add_r by lia.
      pose proof (Z.log2_spec n ltac:(lia)) as Hlog. fold l in Hlog.
      assert (2 ^ Z.succ l <= 2 ^ (h + 1 + (h + 1)))
        by (apply Z.pow_le_mono_r; lia).
      lia. }
    assert (0 < 2 ^ (h + 1)) by (apply Z.pow_pos_nonneg; lia).
    assert (r < 2 ^ (h + 1)) by (apply square_lt; nia).
    assert (2 ^ (h + 1) <= P) by (apply Z.pow_le_mono_r; lia).
    lia. }
  assert (Hlow : r * P <= m0).
  { assert (r * r * (P * P) <= s)
      by (apply Z.mul_le_mono_nonneg_r; nia).
    assert (r * P < m0 + 1); [apply square_lt; nia | lia]. }
  assert (Hup : m0 < (r + 1) * P).
  { assert (s < (r + 1) * (r + 1) * (P * P))
      by (apply Z.mul_lt_mono_pos_r; nia).
    apply square_lt; nia. }
  unfold u32_of_float. simpl f_exp. simpl f_mant.
  replace (0 <=? - k) with false by (symmetry; apply Z.leb_gt; lia).
  rewrite Z.opp_involutive. fold P.
  symmetry. apply Z.div_unique with
    (r := (if m0 * m0 + m0 <? s then m0 + 1 else m0) - r * P); [|lia].
  left. destruct (Z.ltb_spec (m0 * m0 + m0) s) as [Hround|]; [|lia].
  split; [lia|].
  assert (m0 + 1 <> (r + 1) * P); [|lia].
  intros Heq. assert (Hm : m0 = (r + 1) * P - 1) by lia.
  assert (Hn1 : n + 1 <= (r + 1) * (r + 1)) by lia.
  assert (Hs1 : s + P * P <= (r + 1) * (r + 1) * (P * P)).
  { unfold s. replace (n * (P * P) + P * P) with ((n + 1) * (P * P)) by ring.
    apply Z.mul_le_mono_nonneg_r; nia. }
  assert (P * P <= (r + 1) * P) by nia.
  rewrite Hm in Hround. nia.
Qed.

Lemma u32_small x : 0 <= x < 2 ^ 32 -> u32 x = x.
Proof. intros H. unfold u32. now apply Z.mod_small. Qed.

Lemma blend_channel_spec_aux (fg bg a : Z) :
  is_u8 fg -> 0 <= bg <= 65025 -> is_u8 a ->
  blend_channel fg bg a = Z.sqrt ((fg * fg * a + bg * (255 - a)) / 255)
  /\ is_u8 (blend_channel fg bg a).
Proof.
  unfold is_u8. intros Hfg Hbg Ha.
  assert (Hsq : 0 <= fg * fg <= 65025) by nia.
  assert (H1 : 0 <= fg * fg * a <= 65025 * a) by nia.
  assert (H2 : 0 <= bg * (255 - a) <= 65025 * (255 - a)) by nia.
  assert (Hq : 0 <= (fg * fg * a + bg * (255 - a)) / 255 <= 65025).
  { split; [apply Z.div_pos; lia|].
    apply Z.div_le_upper_bound; lia. }
  assert (Heq : blend_channel fg bg a
                = Z.sqrt ((fg * fg * a + bg * (255 - a)) / 255)).
  { unfold blend_channel.
    rewrite (u32_small (fg * fg)) by lia.
    rewrite (u32_small (fg * fg * a)) by lia.
    rewrite (u32_small (255 - a)) by lia.
    rewrite (u32_small (bg * (255 - a))) by lia.
    rewrite (u32_small (fg * fg * a + bg * (255 - a))) by lia.
    apply sqrtf_exact. lia. }
  split; [assumption|]. rewrite Heq. split; [apply Z.sqrt_nonneg|].
  assert (Z.sqrt ((fg * fg * a + bg * (255 - a)) / 255) < 256); [|lia].
  apply Z.sqrt_lt_square; lia.
Qed.

(** X10: for a foreground byte, a squared background byte and an alpha
    byte, nothing in the computation of [out[i]] wraps or rounds away from
    the exact result: the single-precision square root, truncated, is the
    integer square root of (fg*fg*alpha + bg*(255 - alpha)) / 255, and it is
    a byte. *)
Theorem blend_channel_spec (fg bg a : Z) :
  is_u8 fg -> 0 <= bg <= 65025 -> is_u8 a ->
  blend_channel fg bg a = Z.sqrt ((fg * fg * a + bg * (255 - a)) / 255)
  /\ is_u8 (blend_channel fg bg a).
Proof. exact (blend_channel_spec_aux fg bg a). Qed.

Lemma spec_blend_transparent src b : is_u8 b -> spec_blend src b 0 = b.
Proof.
  unfold is_u8, spec_blend. intros Hb.
  rewrite Z.mul_0_r, Z.add_0_l, Z.sub_0_r, Z.div_mul by lia.
  apply Z.sqrt_square. lia.
Qed.

Lemma chan_range host i v : is_u8 (chan host i v).
Proof.
  unfold chan.
  destruct host; unfold mem_bytes;
    (do 4 (destruct i as [|i]; [apply byte_n_range|]));
    destruct i; simpl; unfold is_u8; lia.
Qed.

Lemma le32toh_chan host v (i : nat) :
  (i < 4)%nat -> byte_n (le32toh host v) (Z.of_nat i) = chan host i v.
Proof.
  intros Hi. unfold chan. rewrite <- le32toh_bytes.
  do 4 (destruct i as [|i]; [reflexivity|]). lia.
Qed.

Lemma nth_linear_of col (i : nat) :
  (i < 3)%nat ->
  nth i (linear_of col) 0 = byte_n col (Z.of_nat i) * byte_n col (Z.of_nat i)
  /\ 0 <= nth i (linear_of col) 0 <= 65025.
Proof.
  intros Hi.
  assert (Hb : forall n, 0 <= byte_n col n * byte_n col n <= 65025).
  { intros n. pose proof (byte_n_range col n) as H. unfold is_u8 in H. nia. }
  assert (H0 : Z.land col 255 = byte_n col 0).
  { unfold byte_n. now rewrite Z.shiftr_0_r. }
  unfold linear_of. rewrite H0.
  change (Z.land (Z.shiftr col 8) 255) with (byte_n col 1).
  change (Z.land (Z.shiftr col 16) 255) with (byte_n col 2).
  do 3 (destruct i as [|i];
        [simpl nth; rewrite u32_small by (pose proof (Hb 0); pose proof (Hb 1);
                                          pose proof (Hb 2); simpl; lia);
         split; [reflexivity | apply Hb]|]).
  lia.
Qed.

(** The entry of [bg_choice] used at (x, y) is the linear form of the
    backdrop the specification names. *)
Lemma bg_choice_backdrop host bg pat x y :
  is_u32 pat ->
  nth (Z.to_nat ((x + y) mod 2)) (bg_choice host bg pat) []
  = linear_of (le32toh host (spec_backdrop host bg pat x y)).
Proof.
  intros Hp. unfold bg_choice, spec_backdrop.
  rewrite le32toh_alpha by assumption.
  rewrite Zmod_even.
  destruct (chan_a host pat =? 255), (Z.even (x + y)); reflexivity.
Qed.

(** AlphaBlend takes its alpha from [c >> 24].  A pixel for which this is
    255 is returned as it is; any other pixel is rebuilt from the three
    blended channels. *)
Lemma AlphaBlend_keep host bg c :
  Z.shiftr c 24 = 255 -> AlphaBlend host bg c = c.
Proof. intros H. unfold AlphaBlend. now rewrite H. Qed.

Lemma AlphaBlend_blend host d c :
  is_u32 c -> Z.shiftr c 24 <> 255 ->
  mem_bytes host (AlphaBlend host (linear_of (le32toh host d)) c)
  = [Z.sqrt ((chan_r host c * chan_r host c * Z.shiftr c 24
              + chan_r host d * chan_r host d * (255 - Z.shiftr c 24)) / 255);
     Z.sqrt ((chan_g host c * chan_g host c * Z.shiftr c 24
              + chan_g host d * chan_g host d * (255 - Z.shiftr c 24)) / 255);
     Z.sqrt ((chan_b host c * chan_b host c * Z.shiftr c 24
              + chan_b host d * chan_b host d * (255 - Z.shiftr c 24)) / 255);
     255].
Proof.
  intros Hc Hne. unfold AlphaBlend.
  destruct (Z.eqb_spec (Z.shiftr c 24) 255) as [|_]; [contradiction|].
  rewrite mem_bytes_to_rgba.
  assert (Ha : is_u8 (Z.shiftr c 24)).
  { rewrite shiftr_24_byte by assumption. apply byte_n_range. }
  change (Z.land (Z.shiftr (le32toh host c) 0) 255)
    with (byte_n (le32toh host c) (Z.of_nat 0)).
  change (Z.land (Z.shiftr (le32toh host c) 8) 255)
    with (byte_n (le32toh host c) (Z.of_nat 1)).
  change (Z.land (Z.shiftr (le32toh host c) 16) 255)
    with (byte_n (le32toh host c) (Z.of_nat 2)).
  simpl nth at 1 3 5.
  rewrite !le32toh_chan by lia.
  destruct (nth_linear_of (le32toh host d) 0 ltac:(lia)) as [E0 R0].
  destruct (nth_linear_of (le32toh host d) 1 ltac:(lia)) as [E1 R1].
  destruct (nth_linear_of (le32toh host d) 2 ltac:(lia)) as [E2 R2].
  rewrite !le32toh_chan in E0, E1, E2 by lia.
  destruct (blend_channel_spec_aux (chan host 0 c)
              (nth 0 (linear_of (le32toh host d)) 0) (Z.shiftr c 24)
              (chan_range host 0 c) R0 Ha) as [B0 U0].
  destruct (blend_channel_spec_aux (chan host 1 c)
              (nth 1 (linear_of (le32toh host d)) 0) (Z.shiftr c 24)
              (chan_range host 1 c) R1 Ha) as [B1 U1].
  destruct (blend_channel_spec_aux (chan host 2 c)
              (nth 2 (linear_of (le32toh host d)) 0) (Z.shiftr c 24)
              (chan_range host 2 c) R2 Ha) as [B2 U2].
  rewrite !u8_small by (assumption || (unfold is_u8; lia)).
  rewrite B0, B1, B2, E0, E1, E2. reflexivity.
Qed.

(** ** The compositor: the whole store *)

Lemma compose_loop_lookup host ch w h px :
  0 < w -> 0 <= h -> Z.of_nat (length px) = w * h ->
  length (fst (compose_loop host ch w h px)) = length px
  /\ forall x y c,
       0 <= x < w -> 0 <= y < h ->
       px !! Z.to_nat (w * y + x) = Some c ->
       fst (compose_loop host ch w h px) !! Z.to_nat (w * y + x)
       = Some (blended host ch y x c).
Proof.
  intros Hw Hh Hlen. unfold compose_loop.
  destruct (compose_rows_spec host ch (Z.to_nat w) (Z.to_nat h) 0 px 0%nat)
    as (px' & Hfold & Hl & Hin & _).
  { apply Nat2Z.inj_le. rewrite Nat2Z.inj_add, Nat2Z.inj_mul, !Z2Nat.id by lia.
    lia. }
  rewrite !Z2Nat.id in Hfold by lia. rewrite Hfold. simpl fst.
  split; [assumption|]. intros x y c Hx Hy Hc.
  assert (Hi : Z.to_nat (w * y + x)
               = (0 + (Z.to_nat y * Z.to_nat w + Z.to_nat x))%nat).
  { apply Nat2Z.inj.
    rewrite Nat2Z.inj_add, Nat2Z.inj_add, Nat2Z.inj_mul, !Z2Nat.id by nia.
    lia. }
  rewrite Hi in *.
  specialize (Hin (Z.to_nat x) (Z.to_nat y) c ltac:(lia) ltac:(lia) Hc).
  rewrite !Z2Nat.id in Hin by lia. rewrite Z.add_0_l in Hin. exact Hin.
Qed.

Lemma at_in_bounds fb x y :
  0 <= x < width fb -> 0 <= y < height fb ->
  at_ fb x y = Ok (default 0 (pixels_ fb !! Z.to_nat (width_ fb * y + x))).
Proof.
  intros Hx Hy. unfold at_.
  replace ((x >=? 0) && (x <? width fb) && (y >=? 0) && (y <? height fb))
    with true by (symmetry; rewrite !andb_true_iff; lia).
  reflexivity.
Qed.

Lemma AlphaComposeBackground_pixelwise_aux
    (host : byte_order) (fb : Framebuffer) (bgcolor pattern_col : Z) :
  fb_wf fb -> is_u32 bgcolor -> chan_a host bgcolor = 255 ->
  exists fb',
    AlphaComposeBackground host fb bgcolor pattern_col = Ok fb'
    /\ width_ fb' = width_ fb /\ height_ fb' = height_ fb /\ fb_wf fb'
    /\ forall x y,
         0 <= x < width fb -> 0 <= y < height fb ->
         exists c,
           at_ fb x y = Ok c
           /\ at_ fb' x y
              = Ok (blended host (bg_choice host bgcolor pattern_col) y x c).
Proof.
  intros Hwf Hu Ha. unfold AlphaComposeBackground.
  rewrite le32toh_alpha, Ha by assumption. simpl.
  destruct (compose_loop_lookup host (bg_choice host bgcolor pattern_col)
              (width_ fb) (height_ fb) (pixels_ fb))
    as [Hlen Hpx]; [apply Hwf | pose proof (wf_height fb Hwf); lia
                    | apply Hwf |].
  eexists. split; [reflexivity|]. split; [reflexivity|].
  split; [reflexivity|]. split.
  - destruct Hwf. constructor; simpl; try assumption. now rewrite Hlen.
  - intros x y Hx Hy.
    pose proof (index_in_range fb x y Hwf Hx Hy) as Hi.
    destruct (lookup_lt_is_Some_2 _ _ Hi) as [c Hc].
    exists c. split.
    + rewrite at_in_bounds by assumption. now rewrite Hc.
    + rewrite at_in_bounds by assumption. simpl.
      unfold width, height in *. now rewrite (Hpx x y c Hx Hy Hc).
Qed.

(** X11: with an opaque background the call succeeds, keeps the dimensions
    and the well-formedness of the store, and replaces the pixel at every
    (x, y) by AlphaBlend of that pixel against the entry of [bg_choice]
    that the parity of x + y selects, on either host. *)
Theorem AlphaComposeBackground_pixelwise
    (host : byte_order) (fb : Framebuffer) (bgcolor pattern_col : Z) :
  fb_wf fb -> is_u32 bgcolor -> chan_a host bgcolor = 255 ->
  exists fb',
    AlphaComposeBackground host fb bgcolor pattern_col = Ok fb'
    /\ width_ fb' = width_ fb /\ height_ fb' = height_ fb /\ fb_wf fb'
    /\ forall x y,
         0 <= x < width fb -> 0 <= y < height fb ->
         exists c,
           at_ fb x y = Ok c
           /\ at_ fb' x y
              = Ok (blended host (bg_choice host bgcolor pattern_col) y x c).
Proof. exact (AlphaComposeBackground_pixelwise_aux host fb bgcolor pattern_col). Qed.

Lemma AlphaComposeBackground_pixelwise_witness :
  (fb_wf (mkFramebuffer 2 1 [0; 4278190335])
   /\ is_u32 (to_rgba BigEndian 255 255 255 255)
   /\ chan_a BigEndian (to_rgba BigEndian 255 255 255 255) = 255) /\
  exists fb',
    AlphaComposeBackground BigEndian (mkFramebuffer 2 1 [0; 4278190335])
      (to_rgba BigEndian 255 255 255 255) 0 = Ok fb'
    /\ width_ fb' = 2 /\ height_ fb' = 1 /\ fb_wf fb'
    /\ forall x y,
         0 <= x < 2 -> 0 <= y < 1 ->
         exists c,
           at_ (mkFramebuffer 2 1 [0; 4278190335]) x y = Ok c
           /\ at_ fb' x y
              = Ok (blended BigEndian
                      (bg_choice BigEndian (to_rgba BigEndian 255 255 255 255) 0)
                      y x c).
Proof.
  assert (H1 : fb_wf (mkFramebuffer 2 1 [0; 4278190335]))
    by (constructor; simpl; unfold INT_MAX; lia).
  assert (H2 : is_u32 (to_rgba BigEndian 255 255 255 255))
    by (vm_compute; split; [discriminate | reflexivity]).
  assert (H3 : chan_a BigEndian (to_rgba BigEndian 255 255 255 255) = 255)
    by reflexivity.
  split; [exact (conj H1 (conj H2 H3))|].
  exact (AlphaComposeBackground_pixelwise BigEndian
           (mkFramebuffer 2 1 [0; 4278190335])
           (to_rgba BigEndian 255 255 255 255) 0 H1 H2 H3).
Defined.

(** ** The compositor on a little-endian host *)

Lemma chan_a_little_endian c :
  is_u32 c -> Z.shiftr c 24 = chan_a LittleEndian c.
Proof. intros H. now rewrite shiftr_24_byte. Qed.

Lemma blended_little_endian bg pat x y c :
  is_u32 pat -> is_u32 c ->
  (chan_a LittleEndian c = 255 ->
   blended LittleEndian (bg_choice LittleEndian bg pat) y x c = c)
  /\ (chan_a LittleEndian c <> 255 ->
      mem_bytes LittleEndian
        (blended LittleEndian (bg_choice LittleEndian bg pat) y x c)
      = spec_composited LittleEndian
          (spec_backdrop LittleEndian bg pat x y) c).
Proof.
  intros Hp Hc. unfold blended, spec_composited, spec_blend.
  rewrite bg_choice_backdrop by assumption.
  rewrite <- (chan_a_little_endian c Hc). split; intros Ha.
  - now apply AlphaBlend_keep.
  - now rewrite AlphaBlend_blend.
Qed.

Lemma at_value_u32 fb x y c :
  Forall is_u32 (pixels_ fb) -> fb_wf fb ->
  0 <= x < width fb -> 0 <= y < height fb ->
  at_ fb x y = Ok c -> is_u32 c.
Proof.
  intros Hall Hwf Hx Hy Hat. rewrite at_in_bounds in Hat by assumption.
  pose proof (index_in_range fb x y Hwf Hx Hy) as Hi.
  destruct (lookup_lt_is_Some_2 _ _ Hi) as [c0 Hc0].
  rewrite Hc0 in Hat. simpl in Hat. injection Hat as <-.
  rewrite Forall_lookup in Hall. eapply Hall. exact Hc0.
Qed.

Lemma AlphaComposeBackground_little_endian_aux
    (fb : Framebuffer) (bgcolor pattern_col x y c : Z) :
  fb_wf fb -> Forall is_u32 (pixels_ fb) ->
  is_u32 bgcolor -> is_u32 pattern_col ->
  chan_a LittleEndian bgcolor = 255 ->
  0 <= x < width fb -> 0 <= y < height fb ->
  at_ fb x y = Ok c ->
  exists fb' c',
    AlphaComposeBackground LittleEndian fb bgcolor pattern_col = Ok fb'
    /\ at_ fb' x y = Ok c'
    /\ (chan_a LittleEndian c = 255 -> c' = c)
    /\ (chan_a LittleEndian c <> 255 ->
        mem_bytes LittleEndian c'
        = spec_composited LittleEndian
            (spec_backdrop LittleEndian bgcolor pattern_col x y) c).
Proof.
  intros Hwf Hall Hbg Hpat Ha Hx Hy Hat.
  destruct (AlphaComposeBackground_pixelwise_aux LittleEndian fb bgcolor
              pattern_col Hwf Hbg Ha) as (fb' & Hrun & _ & _ & _ & Hpx).
  destruct (Hpx x y Hx Hy) as (c0 & Hc0 & Hc').
  rewrite Hat in Hc0. injection Hc0 as <-.
  pose proof (at_value_u32 fb x y c Hall Hwf Hx Hy Hat) as Hc.
  exists fb', (blended LittleEndian (bg_choice LittleEndian bgcolor pattern_col)
                 y x c).
  split; [assumption|]. split; [assumption|].
  apply blended_little_endian; assumption.
Qed.

(** X12: on a little-endian host, with an opaque background: a pixel whose
    alpha is 255 keeps its value, and the bytes of any other pixel become the three
    channels blended as the specification's formula says, followed by 255. *)
Theorem AlphaComposeBackground_little_endian
    (fb : Framebuffer) (bgcolor pattern_col x y c : Z) :
  fb_wf fb -> Forall is_u32 (pixels_ fb) ->
  is_u32 bgcolor -> is_u32 pattern_col ->
  chan_a LittleEndian bgcolor = 255 ->
  0 <= x < width fb -> 0 <= y < height fb ->
  at_ fb x y = Ok c ->
  exists fb' c',
    AlphaComposeBackground LittleEndian fb bgcolor pattern_col = Ok fb'
    /\ at_ fb' x y = Ok c'
    /\ (chan_a LittleEndian c = 255 -> c' = c)
    /\ (chan_a LittleEndian c <> 255 ->
        mem_bytes LittleEndian c'
        = spec_composited LittleEndian
            (spec_backdrop LittleEndian bgcolor pattern_col x y) c).
Proof. exact (AlphaComposeBackground_little_endian_aux fb bgcolor pattern_col x y c). Qed.

Lemma spec_backdrop_opaque host bg pat x y :
  chan_a host bg = 255 -> chan_a host (spec_backdrop host bg pat x y) = 255.
Proof.
  intros Hbg. unfold spec_backdrop.
  destruct (Z.eqb_spec (chan_a host pat) 255); [|assumption].
  destruct (Z.even (x + y)); assumption.
Qed.

(** X13: on a little-endian host a pixel whose alpha is 0 takes the bytes
    of its backdrop: the background, or the pattern where the pattern is opaque and
    x + y is odd. *)
Theorem AlphaComposeBackground_transparent_pixel
    (fb : Framebuffer) (bgcolor pattern_col x y c : Z) :
  fb_wf fb -> Forall is_u32 (pixels_ fb) ->
  is_u32 bgcolor -> is_u32 pattern_col ->
  chan_a LittleEndian bgcolor = 255 ->
  0 <= x < width fb -> 0 <= y < height fb ->
  at_ fb x y = Ok c -> chan_a LittleEndian c = 0 ->
  exists fb' c',
    AlphaComposeBackground LittleEndian fb bgcolor pattern_col = Ok fb'
    /\ at_ fb' x y = Ok c'
    /\ mem_bytes LittleEndian c'
       = mem_bytes LittleEndian
           (spec_backdrop LittleEndian bgcolor pattern_col x y).
Proof.
  intros Hwf Hall Hbg Hpat Ha Hx Hy Hat Hc0.
  destruct (AlphaComposeBackground_little_endian_aux fb bgcolor pattern_col x y c
              Hwf Hall Hbg Hpat Ha Hx Hy Hat)
    as (fb' & c' & Hrun & Hat' & _ & Hblend).
  exists fb', c'. split; [assumption|]. split; [assumption|].
  rewrite Hblend by lia. unfold spec_composited. rewrite Hc0.
  set (d := spec_backdrop LittleEndian bgcolor pattern_col x y).
  pose proof (spec_backdrop_opaque LittleEndian bgcolor pattern_col x y Ha)
    as Hd. fold d in Hd.
  rewrite !spec_blend_transparent by apply chan_range.
  rewrite <- Hd. reflexivity.
Qed.

Lemma to_rgba_little_endian_alpha r g b a :
  Z.shiftr (to_rgba LittleEndian r g b a) 24 = u8 a.
Proof.
  rewrite shiftr_24_byte by apply to_rgba_u32.
  change (to_rgba LittleEndian r g b a) with (packed r g b a).
  apply byte_3_packed.
Qed.

Lemma AlphaBlend_little_endian_opaque bg c :
  is_u32 c ->
  is_u32 (AlphaBlend LittleEndian bg c)
  /\ Z.shiftr (AlphaBlend LittleEndian bg c) 24 = 255.
Proof.
  intros Hc. unfold AlphaBlend.
  destruct (Z.eqb_spec (Z.shiftr c 24) 255) as [E|_]; [now split|].
  split; [apply to_rgba_u32 | apply to_rgba_little_endian_alpha].
Qed.

Lemma compose_loop_index host ch w h px (i : nat) c :
  0 < w -> 0 <= h -> Z.of_nat (length px) = w * h ->
  px !! i = Some c ->
  exists x y,
    fst (compose_loop host ch w h px) !! i = Some (blended host ch y x c).
Proof.
  intros Hw Hh Hlen Hc.
  pose proof (lookup_lt_Some _ _ _ Hc) as Hi.
  exists (Z.of_nat i mod w), (Z.of_nat i / w).
  destruct (compose_loop_lookup host ch w h px Hw Hh Hlen) as [_ Hpx].
  pose proof (Z.div_mod (Z.of_nat i) w ltac:(lia)) as Hdm.
  pose proof (Z.mod_pos_bound (Z.of_nat i) w Hw) as Hm.
  assert (Hy : 0 <= Z.of_nat i / w < h).
  { split; [apply Z.div_pos; lia|].
    apply Z.div_lt_upper_bound; [lia|]. lia. }
  specialize (Hpx (Z.of_nat i mod w) (Z.of_nat i / w) c Hm Hy).
  rewrite <- Hdm, Nat2Z.id in Hpx. now apply Hpx.
Qed.

(** X14: on a little-endian host the composited store holds opaque pixels
    only,
    and compositing it again, against any opaque background and any pattern,
    returns the same store. *)
Theorem AlphaComposeBackground_idempotent
    (fb fb' : Framebuffer) (bgcolor pattern_col bgcolor2 pattern_col2 : Z) :
  fb_wf fb -> Forall is_u32 (pixels_ fb) ->
  is_u32 bgcolor -> chan_a LittleEndian bgcolor = 255 ->
  is_u32 bgcolor2 -> chan_a LittleEndian bgcolor2 = 255 ->
  AlphaComposeBackground LittleEndian fb bgcolor pattern_col = Ok fb' ->
  Forall (fun c => is_u32 c /\ chan_a LittleEndian c = 255) (pixels_ fb')
  /\ AlphaComposeBackground LittleEndian fb' bgcolor2 pattern_col2 = Ok fb'.
Proof.
  intros Hwf Hall Hbg Ha Hbg2 Ha2 Hrun.
  assert (Hh : 0 <= height_ fb) by (pose proof (wf_height fb Hwf); lia).
  unfold AlphaComposeBackground in Hrun.
  rewrite le32toh_alpha, Ha in Hrun by assumption. simpl in Hrun.
  injection Hrun as <-.
  set (ch := bg_choice LittleEndian bgcolor pattern_col).
  destruct (compose_loop_lookup LittleEndian ch (width_ fb) (height_ fb)
              (pixels_ fb) (wf_width fb Hwf) Hh (wf_length fb Hwf))
    as [Hlen _].
  assert (Hop : Forall (fun c => is_u32 c /\ chan_a LittleEndian c = 255)
                  (fst (compose_loop LittleEndian ch (width_ fb) (height_ fb)
                          (pixels_ fb)))).
  { apply Forall_lookup. intros i c' Hc'.
    pose proof (lookup_lt_Some _ _ _ Hc') as Hi. rewrite Hlen in Hi.
    destruct (lookup_lt_is_Some_2 _ _ Hi) as [c Hc].
    destruct (compose_loop_index LittleEndian ch (width_ fb) (height_ fb)
                (pixels_ fb) i c (wf_width fb Hwf) Hh (wf_length fb Hwf) Hc)
      as (x & y & Hb).
    rewrite Hb in Hc'. injection Hc' as <-.
    assert (Huc : is_u32 c).
    { rewrite Forall_lookup in Hall. eapply Hall. exact Hc. }
    unfold blended.
    destruct (AlphaBlend_little_endian_opaque
                (nth (Z.to_nat ((x + y) mod 2)) ch []) c Huc) as [Hu H255].
    split; [assumption|]. now rewrite <- chan_a_little_endian. }
  split; [exact Hop|].
  unfold AlphaComposeBackground.
  rewrite le32toh_alpha, Ha2 by assumption. simpl. do 2 f_equal.
  set (px' := fst (compose_loop LittleEndian ch (width_ fb) (height_ fb)
                     (pixels_ fb))) in *.
  set (ch2 := bg_choice LittleEndian bgcolor2 pattern_col2).
  assert (Hlen' : Z.of_nat (length px') = width_ fb * height_ fb)
    by (rewrite Hlen; apply Hwf).
  destruct (compose_loop_lookup LittleEndian ch2 (width_ fb) (height_ fb)
              px' (wf_width fb Hwf) Hh Hlen') as [Hlen2 _].
  apply list_eq. intros i.
  destruct (px' !! i) as [c'|] eqn:Hc'.
  - destruct (compose_loop_index LittleEndian ch2 (width_ fb) (height_ fb)
                px' i c' (wf_width fb Hwf) Hh Hlen' Hc') as (x & y & Hb).
    rewrite Hb. f_equal. unfold blended. apply AlphaBlend_keep.
    rewrite Forall_lookup in Hop. destruct (Hop i c' Hc') as [Hu H255].
    now rewrite chan_a_little_endian.
  - apply lookup_ge_None. rewrite Hlen2. now apply lookup_ge_None.
Qed.

Lemma AlphaComposeBackground_idempotent_witness :
  (fb_wf (mkFramebuffer 2 1 [0; 2164260608])
   /\ Forall is_u32 [0; 2164260608]
   /\ is_u32 4294967295 /\ chan_a LittleEndian 4294967295 = 255
   /\ is_u32 4278190080 /\ chan_a LittleEndian 4278190080 = 255
   /\ AlphaComposeBackground LittleEndian (mkFramebuffer 2 1 [0; 2164260608])
        4294967295 4284900966
      = Ok (mkFramebuffer 2 1 [4294967295; 4290953799])) /\
  Forall (fun c => is_u32 c /\ chan_a LittleEndian c = 255)
    [4294967295; 4290953799]
  /\ AlphaComposeBackground LittleEndian
       (mkFramebuffer 2 1 [4294967295; 4290953799]) 4278190080 0
     = Ok (mkFramebuffer 2 1 [4294967295; 4290953799]).
Proof.
  assert (H1 : fb_wf (mkFramebuffer 2 1 [0; 2164260608]))
    by (constructor; simpl; unfold INT_MAX; lia).
  assert (H2 : Forall is_u32 [0; 2164260608])
    by (repeat constructor; unfold is_u32; lia).
  assert (H3 : is_u32 4294967295) by (unfold is_u32; lia).
  assert (H4 : chan_a LittleEndian 4294967295 = 255) by reflexivity.
  assert (H5 : is_u32 4278190080) by (unfold is_u32; lia).
  assert (H6 : chan_a LittleEndian 4278190080 = 255) by reflexivity.
  assert (H7 : AlphaComposeBackground LittleEndian
                 (mkFramebuffer 2 1 [0; 2164260608]) 4294967295 4284900966
               = Ok (mkFramebuffer 2 1 [4294967295; 4290953799]))
    by (vm_compute; reflexivity).
  split; [exact (conj H1 (conj H2 (conj H3 (conj H4 (conj H5 (conj H6 H7))))))|].
  exact (AlphaComposeBackground_idempotent (mkFramebuffer 2 1 [0; 2164260608])
           (mkFramebuffer 2 1 [4294967295; 4290953799])
           4294967295 4284900966 4278190080 0 H1 H2 H3 H4 H5 H6 H7).
Defined.

Lemma AlphaComposeBackground_little_endian_witness :
  (fb_wf (mkFramebuffer 2 1 [0; 2164260608])
   /\ Forall is_u32 [0; 2164260608]
   /\ is_u32 4294967295 /\ is_u32 4284900966
   /\ chan_a LittleEndian 4294967295 = 255
   /\ 0 <= 1 < 2 /\ 0 <= 0 < 1
   /\ at_ (mkFramebuffer 2 1 [0; 2164260608]) 1 0 = Ok 2164260608) /\
  exists fb' c',
    AlphaComposeBackground LittleEndian (mkFramebuffer 2 1 [0; 2164260608])
      4294967295 4284900966 = Ok fb'
    /\ at_ fb' 1 0 = Ok c'
    /\ (chan_a LittleEndian 2164260608 = 255 -> c' = 2164260608)
    /\ (chan_a LittleEndian 2164260608 <> 255 ->
        mem_bytes LittleEndian c'
        = spec_composited LittleEndian
            (spec_backdrop LittleEndian 4294967295 4284900966 1 0)
            2164260608).
Proof.
  assert (H1 : fb_wf (mkFramebuffer 2 1 [0; 2164260608]))
    by (constructor; simpl; unfold INT_MAX; lia).
  assert (H2 : Forall is_u32 [0; 2164260608])
    by (repeat constructor; unfold is_u32; lia).
  assert (H3 : is_u32 4294967295) by (unfold is_u32; lia).
  assert (H4 : is_u32 4284900966) by (unfold is_u32; lia).
  assert (H5 : chan_a LittleEndian 4294967295 = 255) by reflexivity.
  assert (H6 : 0 <= 1 < 2) by lia.
  assert (H7 : 0 <= 0 < 1) by lia.
  assert (H8 : at_ (mkFramebuffer 2 1 [0; 2164260608]) 1 0 = Ok 2164260608)
    by reflexivity.
  split;
    [exact (conj H1 (conj H2 (conj H3 (conj H4 (conj H5 (conj H6
                                                          (conj H7 H8)))))))|].
  exact (AlphaComposeBackground_little_endian
           (mkFramebuffer 2 1 [0; 2164260608]) 4294967295 4284900966 1 0
           2164260608 H1 H2 H3 H4 H5 H6 H7 H8).
Defined.

Lemma AlphaComposeBackground_transparent_pixel_witness :
  (fb_wf (mkFramebuffer 2 1 [0; 2164260608])
   /\ Forall is_u32 [0; 2164260608]
   /\ is_u32 4294967295 /\ is_u32 4284900966
   /\ chan_a LittleEndian 4294967295 = 255
   /\ 0 <= 0 < 2 /\ 0 <= 0 < 1
   /\ at_ (mkFramebuffer 2 1 [0; 2164260608]) 0 0 = Ok 0
   /\ chan_a LittleEndian 0 = 0) /\
  exists fb' c',
    AlphaComposeBackground LittleEndian (mkFramebuffer 2 1 [0; 2164260608])
      4294967295 4284900966 = Ok fb'
    /\ at_ fb' 0 0 = Ok c'
    /\ mem_bytes LittleEndian c'
       = mem_bytes LittleEndian
           (spec_backdrop LittleEndian 4294967295 4284900966 0 0).
Proof.
  assert (H1 : fb_wf (mkFramebuffer 2 1 [0; 2164260608]))
    by (constructor; simpl; unfold INT_MAX; lia).
  assert (H2 : Forall is_u32 [0; 2164260608])
    by (repeat constructor; unfold is_u32; lia).
  assert (H3 : is_u32 4294967295) by (unfold is_u32; lia).
  assert (H4 : is_u32 4284900966) by (unfold is_u32; lia).
  assert (H5 : chan_a LittleEndian 4294967295 = 255) by reflexivity.
  assert (H6 : 0 <= 0 < 2) by lia.
  assert (H7 : 0 <= 0 < 1) by lia.
  assert (H8 : at_ (mkFramebuffer 2 1 [0; 2164260608]) 0 0 = Ok 0)
    by reflexivity.
  assert (H9 : chan_a LittleEndian 0 = 0) by reflexivity.
  split;
    [exact (conj H1 (conj H2 (conj H3 (conj H4 (conj H5 (conj H6
                                       (conj H7 (conj H8 H9))))))))|].
  exact (AlphaComposeBackground_transparent_pixel
           (mkFramebuffer 2 1 [0; 2164260608]) 4294967295 4284900966 0 0 0
           H1 H2 H3 H4 H5 H6 H7 H8 H9).
Defined.

(** ** The compositor on a big-endian host *)

(** X15: on a big-endian host AlphaBlend takes the alpha it tests and
    weighs with from [c >> 24], the first byte in memory, which is the red channel:
    a pixel whose red byte is 255 is returned as it is, whatever its alpha
    byte, and any other pixel is blended with its red value as the weight. *)
Theorem AlphaBlend_big_endian (bg : list Z) (d c : Z) :
  is_u32 c ->
  (chan_r BigEndian c = 255 -> AlphaBlend BigEndian bg c = c)
  /\ (chan_r BigEndian c <> 255 ->
      mem_bytes BigEndian (AlphaBlend BigEndian (linear_of (le32toh BigEndian d)) c)
      = [Z.sqrt ((chan_r BigEndian c * chan_r BigEndian c * chan_r BigEndian c
                  + chan_r BigEndian d * chan_r BigEndian d
                    * (255 - chan_r BigEndian c)) / 255);
         Z.sqrt ((chan_g BigEndian c * chan_g BigEndian c * chan_r BigEndian c
                  + chan_g BigEndian d * chan_g BigEndian d
                    * (255 - chan_r BigEndian c)) / 255);
         Z.sqrt ((chan_b BigEndian c * chan_b BigEndian c * chan_r BigEndian c
                  + chan_b BigEndian d * chan_b BigEndian d
                    * (255 - chan_r BigEndian c)) / 255);
         255]).
Proof.
  intros Hc.
  assert (Hred : Z.shiftr c 24 = chan_r BigEndian c)
    by now rewrite shiftr_24_byte.
  split; intros H.
  - apply AlphaBlend_keep. congruence.
  - rewrite AlphaBlend_blend by congruence. now rewrite Hred.
Qed.

Lemma AlphaBlend_big_endian_witness :
  (is_u32 (to_rgba BigEndian 255 0 0 0)
   /\ chan_r BigEndian (to_rgba BigEndian 255 0 0 0) = 255) /\
  AlphaBlend BigEndian [65025; 65025; 65025] (to_rgba BigEndian 255 0 0 0)
  = to_rgba BigEndian 255 0 0 0.
Proof.
  assert (H : is_u32 (to_rgba BigEndian 255 0 0 0))
    by (vm_compute; split; [discriminate | reflexivity]).
  assert (Hr : chan_r BigEndian (to_rgba BigEndian 255 0 0 0) = 255)
    by reflexivity.
  split; [exact (conj H Hr)|].
  exact (proj1 (AlphaBlend_big_endian [65025; 65025; 65025] 0
                  (to_rgba BigEndian 255 0 0 0) H) Hr).
Defined.

Lemma blend_channel_spec_witness :
  (is_u8 10 /\ 0 <= 10000 <= 65025 /\ is_u8 128) /\
  blend_channel 10 10000 128 = Z.sqrt ((10 * 10 * 128 + 10000 * (255 - 128)) / 255)
  /\ is_u8 (blend_channel 10 10000 128).
Proof.
  assert (H1 : is_u8 10) by (unfold is_u8; lia).
  assert (H2 : 0 <= 10000 <= 65025) by lia.
  assert (H3 : is_u8 128) by (unfold is_u8; lia).
  split; [exact (conj H1 (conj H2 H3))|].
  exact (blend_channel_spec 10 10000 128 H1 H2 H3).
Defined.

(** ** More on the pixel store *)

Lemma zero_pixel host : to_rgba host 0 0 0 0 = 0.
Proof. destruct host; reflexivity. Qed.

Lemma Clear_wf fb : fb_wf fb -> fb_wf (Clear fb).
Proof.
  intros [Hw Hh Hc Hl]. constructor; simpl; try assumption.
  rewrite length_replicate, Z2Nat.id; nia.
Qed.

Lemma Clear_all_zero_aux (host : byte_order) (fb : Framebuffer) (x y : Z) :
  fb_wf fb -> 0 <= x < width fb -> 0 <= y < height fb ->
  fb_wf (Clear fb)
  /\ width (Clear fb) = width fb /\ height (Clear fb) = height fb
  /\ at_ (Clear fb) x y = Ok (to_rgba host 0 0 0 0)
  /\ mem_bytes host (to_rgba host 0 0 0 0) = [0; 0; 0; 0].
Proof.
  intros Hwf Hx Hy. pose proof (Clear_wf fb Hwf) as Hwf'.
  split; [assumption|]. split; [reflexivity|]. split; [reflexivity|].
  split; [|destruct host; reflexivity].
  rewrite zero_pixel, at_in_bounds by assumption.
  pose proof (index_in_range (Clear fb) x y Hwf' Hx Hy) as Hi.
  simpl in *. rewrite lookup_replicate_2; [reflexivity|].
  now rewrite length_replicate in Hi.
Qed.

(** X1: Clear keeps the dimensions and a well-formed store, and afterwards
    every pixel within the bounds reads as the zero pixel, to_rgba(0,0,0,0),
    whose four bytes are 0. *)
Theorem Clear_all_zero (host : byte_order) (fb : Framebuffer) (x y : Z) :
  fb_wf fb -> 0 <= x < width fb -> 0 <= y < height fb ->
  fb_wf (Clear fb)
  /\ width (Clear fb) = width fb /\ height (Clear fb) = height fb
  /\ at_ (Clear fb) x y = Ok (to_rgba host 0 0 0 0)
  /\ mem_bytes host (to_rgba host 0 0 0 0) = [0; 0; 0; 0].
Proof. exact (Clear_all_zero_aux host fb x y). Qed.

Lemma Clear_all_zero_witness :
  (fb_wf (mkFramebuffer 2 2 [1; 2; 3; 4]) /\ 0 <= 1 < 2 /\ 0 <= 1 < 2) /\
  fb_wf (Clear (mkFramebuffer 2 2 [1; 2; 3; 4]))
  /\ width (Clear (mkFramebuffer 2 2 [1; 2; 3; 4])) = 2
  /\ height (Clear (mkFramebuffer 2 2 [1; 2; 3; 4])) = 2
  /\ at_ (Clear (mkFramebuffer 2 2 [1; 2; 3; 4])) 1 1
     = Ok (to_rgba BigEndian 0 0 0 0)
  /\ mem_bytes BigEndian (to_rgba BigEndian 0 0 0 0) = [0; 0; 0; 0].
Proof.
  assert (H1 : fb_wf (mkFramebuffer 2 2 [1; 2; 3; 4]))
    by (constructor; simpl; unfold INT_MAX; lia).
  assert (H2 : 0 <= 1 < 2) by lia.
  split; [exact (conj H1 (conj H2 H2))|].
  exact (Clear_all_zero BigEndian (mkFramebuffer 2 2 [1; 2; 3; 4]) 1 1
           H1 H2 H2).
Defined.



Lemma SetPixel_in_bounds fb x y p :
  0 <= x < width fb -> 0 <= y < height fb ->
  SetPixel fb x y p
  = mkFramebuffer (width_ fb) (height_ fb)
      (<[Z.to_nat (width_ fb * y + x) := p]> (pixels_ fb)).
Proof.
  intros Hx Hy. unfold SetPixel.
  replace ((x <? 0) || (x >=? width fb) || (y <? 0) || (y >=? height fb))
    with false by (symmetry; rewrite !orb_false_iff; lia).
  reflexivity.
Qed.

Lemma SetPixel_outside fb x y p :
  ~ (0 <= x < width fb /\ 0 <= y < height fb) -> SetPixel fb x y p = fb.
Proof.
  intros Hout. unfold SetPixel.
  replace ((x <? 0) || (x >=? width fb) || (y <? 0) || (y >=? height fb))
    with true; [reflexivity|].
  symmetry. rewrite !orb_true_iff. lia.
Qed.

(** Distinct positions within a row-major store have distinct indices. *)
Lemma index_injective w x y x' y' :
  0 <= x < w -> 0 <= x' < w -> 0 <= y -> 0 <= y' ->
  Z.to_nat (w * y + x) = Z.to_nat (w * y' + x') -> x = x' /\ y = y'.
Proof.
  intros Hx Hx' Hy Hy' H.
  apply Z2Nat.inj in H; [|nia|nia].
  assert (y = y') by nia. subst. lia.
Qed.

(** X3: a write within the bounds keeps the dimensions and the
    well-formedness of the store and changes no other pixel: reading any
    other position within the bounds gives what it gave before. *)
Theorem SetPixel_frame (fb : Framebuffer) (x y p x' y' : Z) :
  fb_wf fb ->
  0 <= x' < width fb -> 0 <= y' < height fb ->
  (x', y') <> (x, y) ->
  fb_wf (SetPixel fb x y p)
  /\ width (SetPixel fb x y p) = width fb
  /\ height (SetPixel fb x y p) = height fb
  /\ at_ (SetPixel fb x y p) x' y' = at_ fb x' y'.
Proof.
  intros Hwf Hx' Hy' Hne.
  split; [now apply SetPixel_wf|].
  destruct (decide (0 <= x < width fb /\ 0 <= y < height fb)) as [[Hx Hy]|Hout].
  - rewrite SetPixel_in_bounds by assumption.
    split; [reflexivity|]. split; [reflexivity|].
    rewrite !at_in_bounds by assumption. simpl. unfold width in *.
    rewrite list_lookup_insert_ne; [reflexivity|].
    intros Heq. apply index_injective in Heq; try lia.
    destruct Heq; subst. now apply Hne.
  - rewrite SetPixel_outside by assumption. auto.
Qed.

Lemma SetPixel_frame_witness :
  (fb_wf (mkFramebuffer 2 2 [1; 2; 3; 4]) /\ 0 <= 0 < 2 /\ 0 <= 1 < 2
   /\ (0, 1) <> (1, 0)) /\
  fb_wf (SetPixel (mkFramebuffer 2 2 [1; 2; 3; 4]) 1 0 9)
  /\ width (SetPixel (mkFramebuffer 2 2 [1; 2; 3; 4]) 1 0 9) = 2
  /\ height (SetPixel (mkFramebuffer 2 2 [1; 2; 3; 4]) 1 0 9) = 2
  /\ at_ (SetPixel (mkFramebuffer 2 2 [1; 2; 3; 4]) 1 0 9) 0 1
     = at_ (mkFramebuffer 2 2 [1; 2; 3; 4]) 0 1.
Proof.
  assert (H1 : fb_wf (mkFramebuffer 2 2 [1; 2; 3; 4]))
    by (constructor; simpl; unfold INT_MAX; lia).
  assert (H2 : 0 <= 0 < 2) by lia. assert (H3 : 0 <= 1 < 2) by lia.
  assert (H4 : (0, 1) <> (1, 0)) by discriminate.
  split; [exact (conj H1 (conj H2 (conj H3 H4)))|].
  exact (SetPixel_frame (mkFramebuffer 2 2 [1; 2; 3; 4]) 1 0 9 0 1
           H1 H2 H3 H4).
Defined.

(** X4: of two writes to one position the later one stays, and writes to
    two different positions can be made in either order. *)
Theorem SetPixel_twice (fb : Framebuffer) (x y p x' y' q : Z) :
  SetPixel (SetPixel fb x y p) x y q = SetPixel fb x y q
  /\ ((x, y) <> (x', y') ->
      SetPixel (SetPixel fb x y p) x' y' q
      = SetPixel (SetPixel fb x' y' q) x y p).
Proof.
  split.
  - destruct (decide (0 <= x < width fb /\ 0 <= y < height fb))
      as [[Hx Hy]|Hout].
    + rewrite (SetPixel_in_bounds fb x y p), (SetPixel_in_bounds fb x y q)
        by assumption.
      rewrite SetPixel_in_bounds by assumption. simpl.
      now rewrite list_insert_insert_eq.
    + rewrite (SetPixel_outside fb x y p) by assumption. reflexivity.
  - intros Hne.
    destruct (decide (0 <= x < width fb /\ 0 <= y < height fb))
      as [[Hx Hy]|Hout];
      [|now rewrite (SetPixel_outside fb x y p),
          (SetPixel_outside (SetPixel fb x' y' q) x y p)
          by (try assumption;
              unfold SetPixel;
              destruct ((x' <? 0) || (x' >=? width fb) || (y' <? 0)
                        || (y' >=? height fb)); assumption)].
    destruct (decide (0 <= x' < width fb /\ 0 <= y' < height fb))
      as [[Hx' Hy']|Hout'].
    + rewrite (SetPixel_in_bounds fb x y p), (SetPixel_in_bounds fb x' y' q)
        by assumption.
      rewrite !SetPixel_in_bounds by assumption. simpl. f_equal.
      apply list_insert_insert_ne.
      intros Heq. unfold width in *.
      apply index_injective in Heq; try lia.
      destruct Heq; subst. now apply Hne.
    + rewrite (SetPixel_outside fb x' y' q) by assumption.
      apply SetPixel_outside.
      rewrite SetPixel_in_bounds by assumption. assumption.
Qed.

(** X5: to_rgba takes each argument modulo 256, whatever integer is
    passed: the bytes in memory are the four remainders, which are not
    clamped, and the result is a 32-bit value. *)
Theorem to_rgba_wraps (host : byte_order) (r g b a : Z) :
  mem_bytes host (to_rgba host r g b a)
  = [r mod 256; g mod 256; b mod 256; a mod 256]
  /\ to_rgba host r g b a
     = to_rgba host (r mod 256) (g mod 256) (b mod 256) (a mod 256)
  /\ is_u32 (to_rgba host r g b a).
Proof.
  split; [apply mem_bytes_to_rgba|]. split; [|apply to_rgba_u32].
  unfold to_rgba, u8. change (2 ^ 8) with 256.
  now rewrite !Z.mod_mod by lia.
Qed.

Lemma testbit_byte_n v k j :
  0 <= j < 8 -> 0 <= k ->
  Z.testbit (byte_n v k) j = Z.testbit v (8 * k + j).
Proof.
  intros Hj Hk. unfold byte_n. change 255 with (Z.ones 8).
  rewrite Z.land_spec, Z.shiftr_spec, Z.testbit_ones_nonneg by lia.
  replace (j <? 8) with true by (symmetry; apply Z.ltb_lt; lia).
  rewrite andb_true_r. f_equal. lia.
Qed.

Lemma testbit_u32_high v n : is_u32 v -> 32 <= n -> Z.testbit v n = false.
Proof.
  unfold is_u32. intros Hv Hn.
  rewrite <- (Z.mod_small v (2 ^ 32)) by lia.
  apply Z.mod_pow2_bits_high. lia.
Qed.

(** A 32-bit value is determined by its four bytes. *)
Lemma u32_bytes_ext v w :
  is_u32 v -> is_u32 w ->
  byte_n v 0 = byte_n w 0 -> byte_n v 1 = byte_n w 1 ->
  byte_n v 2 = byte_n w 2 -> byte_n v 3 = byte_n w 3 ->
  v = w.
Proof.
  intros Hv Hw H0 H1 H2 H3. apply Z.bits_inj'. intros n Hn.
  destruct (Z_lt_le_dec n 32) as [Hlt|Hge];
    [|now rewrite !testbit_u32_high by assumption].
  assert (Hk : n = 8 * 0 + n /\ n < 8 \/ n = 8 * 1 + (n - 8) /\ 8 <= n < 16
               \/ n = 8 * 2 + (n - 16) /\ 16 <= n < 24
               \/ n = 8 * 3 + (n - 24) /\ 24 <= n) by lia.
  destruct Hk as [[-> ?]|[[-> ?]|[[-> ?]|[-> ?]]]];
    rewrite <- !testbit_byte_n by lia; congruence.
Qed.

Lemma bswap32_involutive v : is_u32 v -> bswap32 (bswap32 v) = v.
Proof.
  intros H. apply u32_bytes_ext; try assumption; try apply bswap32_u32.
  - now rewrite byte_0_bswap, byte_3_bswap.
  - now rewrite byte_1_bswap, byte_2_bswap.
  - now rewrite byte_2_bswap, byte_1_bswap.
  - now rewrite byte_3_bswap, byte_0_bswap.
Qed.

(** On either host [le32toh] undoes [htole32] and [htole32] undoes
    [le32toh] on 32-bit values. *)
Lemma le32toh_htole32 (host : byte_order) (v : Z) :
  is_u32 v ->
  le32toh host (htole32 host v) = v
  /\ htole32 host (le32toh host v) = v
  /\ is_u32 (htole32 host v) /\ is_u32 (le32toh host v).
Proof.
  intros H. destruct host; simpl.
  - auto.
  - rewrite bswap32_involutive by assumption.
    auto using bswap32_u32.
Qed.


(** ** The row view *)

Lemma fill_rows_spec w (n : nat) :
  forall (s : Z) (table : list row_ptr),
    0 <= s ->
    let table' :=
      fold_left
        (fun t i => <[Z.to_nat i := PixelsAt (i * w * sizeof_rgba_t)]> t)
        (seqZ s (Z.of_nat n)) table in
    length table' = length table
    /\ (forall i, s <= i < s + Z.of_nat n ->
          (Z.to_nat i < length table)%nat ->
          table' !! Z.to_nat i = Some (PixelsAt (i * w * sizeof_rgba_t)))
    /\ (forall j : nat, ~ (s <= Z.of_nat j < s + Z.of_nat n) ->
          table' !! j = table !! j).
Proof.
  induction n as [|n IH]; intros s table Hs; cbv zeta.
  - simpl. repeat split; intros; auto; lia.
  - rewrite seqZ_cons by lia.
    replace (Z.pred (Z.of_nat (S n))) with (Z.of_nat n) by lia.
    simpl fold_left.
    set (t1 := <[Z.to_nat s := PixelsAt (s * w * sizeof_rgba_t)]> table).
    destruct (IH (Z.succ s) t1 ltac:(lia)) as (Hl & Hin & Hout).
    assert (Hl1 : length t1 = length table) by apply length_insert.
    split; [now rewrite Hl|]. split.
    + intros i Hi Hlt. destruct (Z.eq_dec i s) as [->|Hne].
      * rewrite Hout by lia. unfold t1.
        now apply list_lookup_insert_eq.
      * apply Hin; [lia | congruence].
    + intros j Hj. rewrite Hout by lia. unfold t1.
      apply list_lookup_insert_ne. lia.
Qed.

Lemma row_data_table_aux (fb : Framebuffer) :
  0 <= height_ fb ->
  let table := snd (row_data fb None) in
  fst (row_data fb None) = Some table
  /\ Z.of_nat (length table) = height_ fb + 1
  /\ (forall i, 0 <= i < height_ fb ->
        table !! Z.to_nat i
        = Some (PixelsAt (i * width_ fb * sizeof_rgba_t)))
  /\ table !! Z.to_nat (height_ fb) = Some Null
  /\ Forall (fun p => p <> Indeterminate) table.
Proof.
  intros Hh. simpl. unfold fill_rows.
  set (fresh := replicate (Z.to_nat (height_ fb + 1)) Indeterminate).
  assert (Hfresh : Z.of_nat (length fresh) = height_ fb + 1)
    by (unfold fresh; rewrite length_replicate; lia).
  pose proof (fill_rows_spec (width_ fb) (Z.to_nat (height_ fb)) 0 fresh
                ltac:(lia)) as H.
  rewrite Z2Nat.id in H by lia. simpl in H.
  destruct H as (Hl & Hin & Hout).
  set (rows := fold_left _ _ fresh) in *.
  split; [reflexivity|]. split; [rewrite length_insert; lia|].
  assert (Hrow : forall i, 0 <= i < height_ fb ->
            <[Z.to_nat (height_ fb) := Null]> rows !! Z.to_nat i
            = Some (PixelsAt (i * width_ fb * sizeof_rgba_t))).
  { intros i Hi. rewrite list_lookup_insert_ne by lia.
    apply Hin; lia. }
  assert (Hnull : <[Z.to_nat (height_ fb) := Null]> rows
                    !! Z.to_nat (height_ fb) = Some Null)
    by (apply list_lookup_insert_eq; lia).
  split; [exact Hrow|]. split; [exact Hnull|].
  apply Forall_lookup. intros j p Hp.
  pose proof (lookup_lt_Some _ _ _ Hp) as Hj. rewrite length_insert in Hj.
  destruct (Z.eq_dec (Z.of_nat j) (height_ fb)) as [E|Hne].
  - replace j with (Z.to_nat (height_ fb)) in Hp by lia.
    rewrite Hnull in Hp. simpl. congruence.
  - specialize (Hrow (Z.of_nat j) ltac:(lia)). rewrite Nat2Z.id in Hrow.
    simpl. congruence.
Qed.







Lemma SetPixel_twice_witness :
  (1, 0) <> (0, 1) /\
  SetPixel (SetPixel (new_Framebuffer 2 2) 1 0 7) 1 0 9
  = SetPixel (new_Framebuffer 2 2) 1 0 9
  /\ SetPixel (SetPixel (new_Framebuffer 2 2) 1 0 7) 0 1 9
     = SetPixel (SetPixel (new_Framebuffer 2 2) 0 1 9) 1 0 7.
Proof.
  assert (H : (1, 0) <> (0, 1)) by discriminate.
  split; [exact H|].
  exact (conj (proj1 (SetPixel_twice (new_Framebuffer 2 2) 1 0 7 0 1 9))
           (proj2 (SetPixel_twice (new_Framebuffer 2 2) 1 0 7 0 1 9) H)).
Defined.

(** Packing the four channels read from a 32-bit pixel value gives the
    value back, on either host. *)
Lemma to_rgba_of_channels (host : byte_order) (v : Z) :
  is_u32 v ->
  to_rgba host (chan_r host v) (chan_g host v) (chan_b host v) (chan_a host v)
  = v.
Proof.
  intros Hv. unfold to_rgba, htole32, chan_r, chan_g, chan_b, chan_a, chan.
  destruct host; simpl nth.
  - fold (packed (byte_n v 0) (byte_n v 1) (byte_n v 2) (byte_n v 3)).
    apply u32_bytes_ext; try assumption; try apply packed_u32.
    + rewrite byte_0_packed. apply u8_small, byte_n_range.
    + rewrite byte_1_packed. apply u8_small, byte_n_range.
    + rewrite byte_2_packed. apply u8_small, byte_n_range.
    + rewrite byte_3_packed. apply u8_small, byte_n_range.
  - fold (packed (byte_n v 3) (byte_n v 2) (byte_n v 1) (byte_n v 0)).
    apply u32_bytes_ext; try assumption; try apply bswap32_u32.
    + rewrite byte_0_bswap, byte_3_packed. apply u8_small, byte_n_range.
    + rewrite byte_1_bswap, byte_2_packed. apply u8_small, byte_n_range.
    + rewrite byte_2_bswap, byte_1_packed. apply u8_small, byte_n_range.
    + rewrite byte_3_bswap, byte_0_packed. apply u8_small, byte_n_range.
Qed.


(** ** Characters *)

Lemma code_inj c d : code c = code d -> c = d.
Proof.
  unfold code. intros H. apply N2Z.inj in H.
  rewrite <- (ascii_N_embedding c), <- (ascii_N_embedding d). now f_equal.
Qed.

Lemma ascii_eqb_code c d : Ascii.eqb c d = (code c =? code d).
Proof.
  destruct (Ascii.eqb_spec c d) as [->|Hne].
  - symmetry. apply Z.eqb_refl.
  - symmetry. apply Z.eqb_neq. intros H. apply Hne. now apply code_inj.
Qed.

Lemma isdigit_code c : isdigit c = true -> 48 <= code c <= 57.
Proof. unfold isdigit. rewrite andb_true_iff. lia. Qed.

Lemma isxdigit_code c :
  isxdigit c = true ->
  48 <= code c <= 57 \/ 65 <= code c <= 70 \/ 97 <= code c <= 102.
Proof. unfold isxdigit, isdigit. rewrite !orb_true_iff, !andb_true_iff. lia. Qed.

Lemma isalpha_code c :
  isalpha c = true -> 65 <= code c <= 90 \/ 97 <= code c <= 122.
Proof. unfold isalpha. rewrite !orb_true_iff, !andb_true_iff. lia. Qed.

Lemma tolower_cases c :
  (65 <= code c <= 90 /\ tolower c = code c + 32)
  \/ (~ 65 <= code c <= 90 /\ tolower c = code c).
Proof.
  unfold tolower.
  destruct ((65 <=? code c) && (code c <=? 90)) eqn:E.
  - apply andb_true_iff in E. left. lia.
  - apply andb_false_iff in E. right. lia.
Qed.

Lemma code_range c : 0 <= code c < 256.
Proof.
  unfold code. pose proof (N_ascii_bounded c). lia.
Qed.

Lemma digit_val_digit c : isdigit c = true -> 0 <= digit_val c <= 9.
Proof.
  intros H. unfold digit_val. rewrite H. apply isdigit_code in H. lia.
Qed.

Lemma digit_val_xdigit c : isxdigit c = true -> 0 <= digit_val c <= 15.
Proof.
  intros H. apply isxdigit_code in H. unfold digit_val, isdigit.
  destruct ((48 <=? code c) && (code c <=? 57)) eqn:E1.
  - apply andb_true_iff in E1. lia.
  - destruct ((97 <=? code c) && (code c <=? 102)) eqn:E2.
    + apply andb_true_iff in E2. lia.
    + apply andb_false_iff in E1. apply andb_false_iff in E2. lia.
Qed.

Lemma skip_space_blank sp rest :
  Forall (fun c => isspace c = true) sp ->
  skip_space (sp ++ rest) = skip_space rest.
Proof.
  induction 1 as [|c sp Hc _ IH]; [reflexivity|].
  simpl. now rewrite Hc.
Qed.

Lemma skip_space_digit c rest :
  isxdigit c = true -> skip_space (c :: rest) = c :: rest.
Proof.
  intros H. simpl. apply isxdigit_code in H.
  unfold isspace.
  replace (code c =? 32) with false by (symmetry; apply Z.eqb_neq; lia).
  replace ((9 <=? code c) && (code c <=? 13)) with false;
    [reflexivity|].
  symmetry. apply andb_false_iff. lia.
Qed.

Lemma isdigit_isxdigit c : isdigit c = true -> isxdigit c = true.
Proof. intros H. unfold isxdigit. now rewrite H. Qed.

(** ** Numeric conversions of sscanf *)

Lemma scan_digits_dec ds :
  forall acc n rest,
    Forall (fun c => isdigit c = true) ds ->
    match rest with [] => True | c :: _ => isdigit c = false end ->
    scan_digits 10 None acc n (ds ++ rest)
    = (fold_left (fun a c => a * 10 + digit_val c) ds acc,
       (n + length ds)%nat, rest).
Proof.
  induction ds as [|d ds IH]; intros acc n rest Hds Hrest.
  - simpl. rewrite Nat.add_0_r. destruct rest as [|c r]; [reflexivity|].
    simpl. now rewrite Hrest.
  - inversion Hds as [|? ? Hd Hds']; subst. simpl. rewrite Hd.
    rewrite IH by assumption. do 2 f_equal. lia.
Qed.

Lemma not_sign c :
  isxdigit c = true -> Ascii.eqb c "-" = false /\ Ascii.eqb c "+" = false.
Proof.
  intros H. apply isxdigit_code in H. rewrite !ascii_eqb_code.
  change (code "-") with 45. change (code "+") with 43.
  split; apply Z.eqb_neq; lia.
Qed.

Lemma digit_val_zero c : Ascii.eqb c "0" = true -> digit_val c = 0.
Proof. intros H. apply Ascii.eqb_eq in H. now subst. Qed.

(** [%d] on a non-empty run of digits that something other than a digit
    follows: the run is consumed and converted. *)
Lemma scan_int_dec ds rest :
  ds <> [] -> Forall (fun c => isdigit c = true) ds ->
  match rest with [] => True | c :: _ => isdigit c = false end ->
  scan_int ConvD None (ds ++ rest)
  = ItemOk (u32 (strtol false (dec_value ds))) rest.
Proof.
  intros Hne Hds Hrest. destruct ds as [|d ds]; [contradiction|].
  inversion Hds as [|? ? Hd Hds']; subst.
  destruct (not_sign d (isdigit_isxdigit d Hd)) as [Hm Hp].
  change ((d :: ds) ++ rest) with (d :: (ds ++ rest)).
  unfold scan_int. cbv beta iota zeta. rewrite Hm, Hp.
  cbn [orb width_left andb].
  destruct (Ascii.eqb d "0") eqn:Hz.
  - assert (Hv : dec_value (d :: ds) = dec_value ds).
    { unfold dec_value. simpl. now rewrite (digit_val_zero d Hz). }
    assert (Hscan : scan_digits 10 None 0 1 (ds ++ rest)
                    = (dec_value ds, (1 + length ds)%nat, rest))
      by (now apply scan_digits_dec).
    assert (Hbranch :
      match ds ++ rest with
      | cx :: t' =>
          if width_left (width_dec None) && (tolower cx =? 120) && (10 =? 16)
          then (1%nat, width_dec (width_dec None), t')
          else (1%nat, width_dec None, ds ++ rest)
      | [] => (1%nat, width_dec None, ds ++ rest)
      end = (1%nat, None, ds ++ rest)).
    { destruct (ds ++ rest); [reflexivity|].
      now rewrite andb_false_r. }
    rewrite Hbranch, Hscan, Hv. reflexivity.
  - assert (Hscan : scan_digits 10 None 0 0 ((d :: ds) ++ rest)
                    = (dec_value (d :: ds), (0 + length (d :: ds))%nat, rest))
      by (now apply scan_digits_dec).
    simpl app in Hscan. rewrite Hscan. reflexivity.
Qed.

(** [%02x] on two hexadecimal digits. *)
Lemma scan_int_hex2 h l rest :
  isxdigit h = true -> isxdigit l = true ->
  scan_int ConvX (Some 2%nat) (h :: l :: rest) = ItemOk (hex2 h l) rest.
Proof.
  intros Hh Hl.
  destruct (not_sign h Hh) as [Hm Hp].
  pose proof (digit_val_xdigit h Hh) as Vh.
  pose proof (digit_val_xdigit l Hl) as Vl.
  assert (Hx : (tolower l =? 120) = false).
  { apply Z.eqb_neq. apply isxdigit_code in Hl.
    destruct (tolower_cases l) as [[? ->]|[? ->]]; lia. }
  assert (Hval : u32 (strtoul false (hex2 h l)) = hex2 h l).
  { unfold strtoul, hex2, ULONG_MAX.
    replace (2 ^ 64 - 1 <? 16 * digit_val h + digit_val l) with false
      by (symmetry; apply Z.ltb_ge; lia).
    unfold u32. apply Z.mod_small. lia. }
  assert (Hstop : forall acc, scan_digits 16 (Some 0%nat) acc 2 rest
                              = (acc, 2%nat, rest))
    by (intros acc; destruct rest; reflexivity).
  unfold scan_int. cbv beta iota zeta. rewrite Hm, Hp.
  cbn [orb width_left andb].
  destruct (Ascii.eqb h "0") eqn:Hz.
  - cbn [width_dec width_left andb]. rewrite Hx. cbn [andb].
    cbn [scan_digits width_left width_dec andb Z.eqb Pos.eqb].
    rewrite Hl. rewrite Hstop.
    rewrite <- Hval. unfold hex2. rewrite (digit_val_zero h Hz).
    reflexivity.
  - cbn [scan_digits width_left width_dec andb Z.eqb Pos.eqb].
    rewrite Hh.
    cbn [scan_digits width_left width_dec andb Z.eqb Pos.eqb].
    rewrite Hl. rewrite Hstop.
    rewrite <- Hval. unfold hex2. do 3 f_equal. lia.
Qed.

(** ** Named colours *)

Lemma tolower_pos c : code c <> 0 -> tolower c <> 0.
Proof.
  intros H. pose proof (code_range c).
  destruct (tolower_cases c) as [[? ->]|[? ->]]; lia.
Qed.

Lemma tolower_alpha c d :
  isalpha d = true -> tolower c = tolower d -> isalpha c = true.
Proof.
  intros Hd Heq. apply isalpha_code in Hd. unfold isalpha.
  apply orb_true_iff. rewrite !andb_true_iff.
  destruct (tolower_cases c) as [[? Hc]|[? Hc]],
           (tolower_cases d) as [[? Hd']|[? Hd']]; lia.
Qed.

(** A text with a character that is no letter, after a NUL-free prefix, is
    not the name of a colour, whatever the case. *)
Lemma strcasecmp_not_letters p c r b :
  Forall (fun ch => code ch <> 0) p ->
  isalpha c = false -> code c <> 0 ->
  Forall (fun ch => isalpha ch = true) b ->
  strcasecmp (p ++ c :: r) b <> 0.
Proof.
  intros Hp Hc Hc0. revert b.
  induction Hp as [|d p Hd Hp IH]; intros b Hb.
  - simpl app. destruct b as [|c2 t2]; simpl.
    + now apply tolower_pos.
    + inversion Hb as [|? ? Hc2 _]; subst.
      destruct (Z.eqb_spec (tolower c) (tolower c2)) as [E|E]; [|lia].
      rewrite (tolower_alpha c c2 Hc2 E) in Hc. discriminate.
  - simpl app. destruct b as [|c2 t2]; simpl.
    + now apply tolower_pos.
    + inversion Hb as [|? ? _ Ht2]; subst.
      destruct (Z.eqb_spec (tolower d) (tolower c2)) as [E|E]; [|lia].
      now apply IH.
Qed.

Lemma strcasecmp_empty b :
  b <> [] -> Forall (fun ch => isalpha ch = true) b -> strcasecmp [] b <> 0.
Proof.
  intros Hne Hb. destruct b as [|c t]; [contradiction|].
  inversion Hb as [|? ? Hc _]; subst. simpl.
  apply isalpha_code in Hc.
  destruct (tolower_cases c) as [[? ->]|[? ->]]; lia.
Qed.

Lemma list_ascii_nonempty s : s <> EmptyString -> list_ascii_of_string s <> [].
Proof. destruct s; [contradiction | discriminate]. Qed.

Lemma named_color_unnamed html_colors color :
  table_ok html_colors ->
  (forall b, b <> [] -> Forall (fun ch => isalpha ch = true) b ->
             strcasecmp (list_ascii_of_string color) b <> 0) ->
  named_color html_colors color = color.
Proof.
  intros Hok Hno. induction Hok as [|e es [Hne Hal] _ IH]; [reflexivity|].
  simpl.
  destruct (Z.eqb_spec
              (strcasecmp (list_ascii_of_string color)
                 (list_ascii_of_string (name e))) 0) as [E|_];
    [|exact IH].
  exfalso. exact (Hno _ (list_ascii_nonempty _ Hne) Hal E).
Qed.

(** ** ParseColor *)

Lemma list_ascii_app s t :
  list_ascii_of_string (s +:+ t)
  = list_ascii_of_string s ++ list_ascii_of_string t.
Proof. induction s as [|c s IH]; simpl; [reflexivity | now rewrite IH]. Qed.

Lemma format_hex :
  parse_format None (list_ascii_of_string "#%02x%02x%02x")
  = [DLit "#"; DConv (Some 2%nat) ConvX; DConv (Some 2%nat) ConvX;
     DConv (Some 2%nat) ConvX].
Proof. reflexivity. Qed.

Lemma format_dec :
  parse_format None (list_ascii_of_string "rgb(%d, %d, %d)")
  = [DLit "r"; DLit "g"; DLit "b"; DLit "("; DConv None ConvD; DLit ",";
     DSpace; DConv None ConvD; DLit ","; DSpace; DConv None ConvD; DLit ")"].
Proof. reflexivity. Qed.

Lemma format_hex_rgb :
  parse_format None (list_ascii_of_string "rgb(0x%x, 0x%x, 0x%x)")
  = [DLit "r"; DLit "g"; DLit "b"; DLit "("; DLit "0"; DLit "x";
     DConv None ConvX; DLit ","; DSpace; DLit "0"; DLit "x";
     DConv None ConvX; DLit ","; DSpace; DLit "0"; DLit "x";
     DConv None ConvX; DLit ")"].
Proof. reflexivity. Qed.

Lemma scan3_hex h1 h2 h3 h4 h5 h6 tail :
  isxdigit h1 = true -> isxdigit h2 = true -> isxdigit h3 = true ->
  isxdigit h4 = true -> isxdigit h5 = true -> isxdigit h6 = true ->
  scan3 (String "#" (String h1 (String h2 (String h3 (String h4
           (String h5 (String h6 tail)))))))
    "#%02x%02x%02x"
  = Some (hex2 h1 h2, hex2 h3 h4, hex2 h5 h6).
Proof.
  intros H1 H2 H3 H4 H5 H6. unfold scan3, sscanf.
  rewrite format_hex. cbn [list_ascii_of_string scan].
  change (Ascii.eqb "#" "#") with true. cbv iota.
  rewrite (skip_space_digit h1) by assumption.
  rewrite scan_int_hex2 by assumption. cbn [scan app].
  rewrite (skip_space_digit h3) by assumption.
  rewrite scan_int_hex2 by assumption. cbn [scan app].
  rewrite (skip_space_digit h5) by assumption.
  rewrite scan_int_hex2 by assumption. cbn [scan app].
  reflexivity.
Qed.

(** X16: a text that starts with [#] and six hexadecimal digits, of either
    case and whatever follows them, parses to the opaque pixel with the
    three bytes the digit pairs spell, without a diagnostic; the table of
    names plays no part. *)
Theorem ParseColor_hex (host : byte_order) (html_colors : list html_color)
    (h1 h2 h3 h4 h5 h6 : ascii) (tail : string) :
  table_ok html_colors ->
  isxdigit h1 = true -> isxdigit h2 = true -> isxdigit h3 = true ->
  isxdigit h4 = true -> isxdigit h5 = true -> isxdigit h6 = true ->
  ParseColor host html_colors
    (Some (String "#" (String h1 (String h2 (String h3 (String h4
             (String h5 (String h6 tail))))))))
  = (to_rgba host (hex2 h1 h2) (hex2 h3 h4) (hex2 h5 h6) 255, None)
  /\ mem_bytes host (to_rgba host (hex2 h1 h2) (hex2 h3 h4) (hex2 h5 h6) 255)
     = [hex2 h1 h2; hex2 h3 h4; hex2 h5 h6; 255].
Proof.
  intros Hok H1 H2 H3 H4 H5 H6. split.
  - unfold ParseColor. rewrite named_color_unnamed; [|assumption|].
    + now rewrite scan3_hex.
    + intros b _ Hb. cbn [list_ascii_of_string].
      apply (strcasecmp_not_letters [] "#"); auto; discriminate.
  - rewrite mem_bytes_to_rgba.
    pose proof (digit_val_xdigit h1 H1). pose proof (digit_val_xdigit h2 H2).
    pose proof (digit_val_xdigit h3 H3). pose proof (digit_val_xdigit h4 H4).
    pose proof (digit_val_xdigit h5 H5). pose proof (digit_val_xdigit h6 H6).
    rewrite !u8_small by (unfold is_u8, hex2; lia). reflexivity.
Qed.

(** The decimal numeral of a natural number, as stdpp prints it. *)
Lemma pretty_N_char_digit d :
  (d < 10)%N ->
  isdigit (pretty_N_char d) = true /\ digit_val (pretty_N_char d) = Z.of_N d.
Proof.
  intros H.
  assert (d = 0 \/ d = 1 \/ d = 2 \/ d = 3 \/ d = 4 \/ d = 5 \/ d = 6
          \/ d = 7 \/ d = 8 \/ d = 9)%N as Hd by lia.
  repeat (destruct Hd as [->|Hd]; [split; reflexivity|]).
  subst. split; reflexivity.
Qed.

Lemma pretty_N_go_digits x :
  forall s, exists ds,
    list_ascii_of_string (pretty_N_go x s) = ds ++ list_ascii_of_string s
    /\ Forall (fun c => isdigit c = true) ds
    /\ ((0 < x)%N -> ds <> [])
    /\ forall acc,
         fold_left (fun a c => a * 10 + digit_val c) ds acc
         = acc * 10 ^ Z.of_nat (length ds) + Z.of_N x.
Proof.
  induction (N.lt_wf_0 x) as [x _ IH]. intros s.
  destruct (N.eq_dec x 0%N) as [->|Hx].
  - exists []. rewrite pretty_N_go_0. repeat split; auto; try lia.
    intros acc. simpl. lia.
  - rewrite pretty_N_go_step by lia.
    destruct (IH (x `div` 10)%N ltac:(apply N.div_lt; lia)
                (String (pretty_N_char (x `mod` 10)) s))
      as (ds & Heq & Hds & _ & Hval).
    destruct (pretty_N_char_digit (x `mod` 10)%N
                ltac:(apply N.mod_lt; lia)) as [Hdig Hdv].
    exists (ds ++ [pretty_N_char (x `mod` 10)]).
    split; [rewrite Heq; simpl; now rewrite <- app_assoc|].
    split; [apply Forall_app; split; [assumption | now constructor]|].
    split; [intros _; destruct ds; discriminate|].
    intros acc. rewrite fold_left_app. simpl. rewrite Hval, Hdv.
    rewrite length_app. simpl length.
    rewrite Nat2Z.inj_add, Z.pow_add_r by lia. change (10 ^ Z.of_nat 1) with 10.
    pose proof (N.div_mod x 10 ltac:(lia)) as Hdm.
    assert (Z.of_N x = 10 * Z.of_N (x `div` 10) + Z.of_N (x `mod` 10)) by lia.
    lia.
Qed.

Lemma pretty_N_digits (x : N) :
  list_ascii_of_string (pretty x) <> []
  /\ Forall (fun c => isdigit c = true) (list_ascii_of_string (pretty x))
  /\ dec_value (list_ascii_of_string (pretty x)) = Z.of_N x.
Proof.
  unfold pretty, pretty_N. destruct (decide (x = 0%N)) as [->|Hx].
  - repeat split; [discriminate | repeat constructor].
  - destruct (pretty_N_go_digits x "") as (ds & Heq & Hds & Hne & Hval).
    simpl in Heq. rewrite app_nil_r in Heq. rewrite Heq.
    split; [apply Hne; lia|]. split; [assumption|].
    unfold dec_value. rewrite Hval. lia.
Qed.

Lemma skip_space_digits ds rest :
  ds <> [] -> Forall (fun c => isdigit c = true) ds ->
  skip_space (ds ++ rest) = ds ++ rest.
Proof.
  intros Hne Hds. destruct ds as [|d ds]; [contradiction|].
  inversion Hds; subst. apply skip_space_digit. now apply isdigit_isxdigit.
Qed.

Lemma strtol_int n :
  0 <= n <= INT_MAX -> u32 (strtol false n) = n.
Proof.
  unfold INT_MAX, strtol, LONG_MIN, LONG_MAX, u32. intros H.
  rewrite Z.min_r, Z.max_r by lia. apply Z.mod_small. lia.
Qed.

Lemma no_digit_ahead_list s :
  no_digit_ahead s ->
  match list_ascii_of_string s with [] => True | c :: _ => isdigit c = false end.
Proof. destruct s; simpl; auto. Qed.

Lemma scan3_dec sp0 sp1 sp2 (r g b : N) tail :
  blank sp0 -> blank sp1 -> blank sp2 -> no_digit_ahead tail ->
  Z.of_N r <= INT_MAX -> Z.of_N g <= INT_MAX -> Z.of_N b <= INT_MAX ->
  scan3 ("rgb(" +:+ sp0 +:+ pretty r +:+ "," +:+ sp1 +:+ pretty g
         +:+ "," +:+ sp2 +:+ pretty b +:+ tail)
    "rgb(%d, %d, %d)"
  = Some (Z.of_N r, Z.of_N g, Z.of_N b).
Proof.
  intros B0 B1 B2 Ht Hr Hg Hb. unfold scan3, sscanf, blank in *.
  rewrite format_dec, !list_ascii_app.
  destruct (pretty_N_digits r) as (Nr & Dr & Vr).
  destruct (pretty_N_digits g) as (Ng & Dg & Vg).
  destruct (pretty_N_digits b) as (Nb & Db & Vb).
  change (list_ascii_of_string "rgb(") with ["r"; "g"; "b"; "("]%char.
  change (list_ascii_of_string ",") with [","]%char.
  cbn [app scan].
  change (Ascii.eqb "r" "r") with true. change (Ascii.eqb "g" "g") with true.
  change (Ascii.eqb "b" "b") with true. change (Ascii.eqb "(" "(") with true.
  cbv iota.
  rewrite skip_space_blank, skip_space_digits by assumption.
  rewrite scan_int_dec by (assumption || reflexivity).
  cbn [app scan]. change (Ascii.eqb "," ",") with true. cbv iota.
  rewrite skip_space_blank, !skip_space_digits by assumption.
  rewrite scan_int_dec by (assumption || reflexivity).
  cbn [app scan]. change (Ascii.eqb "," ",") with true. cbv iota.
  rewrite skip_space_blank, !skip_space_digits by assumption.
  rewrite scan_int_dec by (try assumption; now apply no_digit_ahead_list).
  rewrite Vr, Vg, Vb, !strtol_int by lia.
  cbn [app scan].
  destruct (list_ascii_of_string tail) as [|c t]; [reflexivity|].
  destruct (Ascii.eqb c ")"); reflexivity.
Qed.

Lemma scan3_hex_not_rgb s :
  scan3 (String "r" s) "#%02x%02x%02x" = None.
Proof. reflexivity. Qed.

(** X17: a text [rgb(R, G, B)] with decimal numerals, each at most INT_MAX
    and written without a sign, parses to the opaque pixel whose bytes are
    R, G and B modulo 256: larger values wrap and are not clamped.  White
    space is accepted before each number, the closing parenthesis is not
    needed, and neither is looked at what follows the third number. *)
Theorem ParseColor_decimal (host : byte_order) (html_colors : list html_color)
    (sp0 sp1 sp2 : string) (r g b : N) (tail : string) :
  table_ok html_colors ->
  blank sp0 -> blank sp1 -> blank sp2 -> no_digit_ahead tail ->
  Z.of_N r <= INT_MAX -> Z.of_N g <= INT_MAX -> Z.of_N b <= INT_MAX ->
  ParseColor host html_colors
    (Some ("rgb(" +:+ sp0 +:+ pretty r +:+ "," +:+ sp1 +:+ pretty g
           +:+ "," +:+ sp2 +:+ pretty b +:+ tail))
  = (to_rgba host (Z.of_N r) (Z.of_N g) (Z.of_N b) 255, None)
  /\ mem_bytes host (to_rgba host (Z.of_N r) (Z.of_N g) (Z.of_N b) 255)
     = [Z.of_N r mod 256; Z.of_N g mod 256; Z.of_N b mod 256; 255].
Proof.
  intros Hok B0 B1 B2 Ht Hr Hg Hb. split; [|apply mem_bytes_to_rgba].
  unfold ParseColor. rewrite named_color_unnamed; [|assumption|].
  - change ("rgb(" +:+ sp0 +:+ pretty r +:+ "," +:+ sp1 +:+ pretty g
            +:+ "," +:+ sp2 +:+ pretty b +:+ tail)
      with (String "r" ("gb(" +:+ sp0 +:+ pretty r +:+ "," +:+ sp1 +:+ pretty g
                        +:+ "," +:+ sp2 +:+ pretty b +:+ tail)) at 1.
    rewrite scan3_hex_not_rgb. now rewrite scan3_dec.
  - intros bn _ Hbn. rewrite list_ascii_app.
    change (list_ascii_of_string "rgb(") with (["r"; "g"; "b"] ++ ["("])%char.
    rewrite <- app_assoc.
    apply strcasecmp_not_letters; auto; repeat constructor; discriminate.
Qed.

Lemma table_ok_sample : table_ok html_colors_sample.
Proof.
  unfold table_ok, html_colors_sample.
  repeat (constructor; [split; [discriminate | repeat constructor]|]).
  constructor.
Qed.

Lemma ParseColor_hex_witness :
  (table_ok html_colors_sample
   /\ isxdigit "F" = true /\ isxdigit "f" = true /\ isxdigit "a" = true
   /\ isxdigit "5" = true /\ isxdigit "0" = true /\ isxdigit "0" = true) /\
  ParseColor BigEndian html_colors_sample (Some "#Ffa500;")
  = (to_rgba BigEndian (hex2 "F" "f") (hex2 "a" "5") (hex2 "0" "0") 255, None)
  /\ mem_bytes BigEndian
       (to_rgba BigEndian (hex2 "F" "f") (hex2 "a" "5") (hex2 "0" "0") 255)
     = [hex2 "F" "f"; hex2 "a" "5"; hex2 "0" "0"; 255].
Proof.
  split; [repeat split; try reflexivity; exact table_ok_sample|].
  exact (ParseColor_hex BigEndian html_colors_sample "F" "f" "a" "5" "0" "0"
           ";" table_ok_sample eq_refl eq_refl eq_refl eq_refl eq_refl eq_refl).
Defined.

Lemma ParseColor_decimal_witness :
  (table_ok html_colors_sample
   /\ blank " " /\ blank "" /\ blank "  " /\ no_digit_ahead ""
   /\ Z.of_N 300 <= INT_MAX /\ Z.of_N 0 <= INT_MAX /\ Z.of_N 7 <= INT_MAX) /\
  ParseColor LittleEndian html_colors_sample (Some "rgb( 300,0,  7")
  = (to_rgba LittleEndian (Z.of_N 300) (Z.of_N 0) (Z.of_N 7) 255, None)
  /\ mem_bytes LittleEndian
       (to_rgba LittleEndian (Z.of_N 300) (Z.of_N 0) (Z.of_N 7) 255)
     = [Z.of_N 300 mod 256; Z.of_N 0 mod 256; Z.of_N 7 mod 256; 255].
Proof.
  assert (B1 : blank " ") by (repeat constructor).
  assert (B0 : blank "") by constructor.
  assert (B2 : blank "  ") by (repeat constructor).
  assert (T : no_digit_ahead "") by exact I.
  assert (H1 : Z.of_N 300 <= INT_MAX) by (unfold INT_MAX; lia).
  assert (H2 : Z.of_N 0 <= INT_MAX) by (unfold INT_MAX; lia).
  assert (H3 : Z.of_N 7 <= INT_MAX) by (unfold INT_MAX; lia).
  split;
    [exact (conj table_ok_sample
              (conj B1 (conj B0 (conj B2 (conj T (conj H1 (conj H2 H3)))))))|].
  exact (ParseColor_decimal LittleEndian html_colors_sample " " "" "  "
           300 0 7 "" table_ok_sample B1 B0 B2 T H1 H2 H3).
Defined.

Lemma chan_a_to_rgba host r g b a : chan_a host (to_rgba host r g b a) = u8 a.
Proof. unfold chan_a, chan. now rewrite mem_bytes_to_rgba. Qed.

(** X18: whatever the text, ParseColor either succeeds, with no diagnostic
    and a pixel whose alpha is 255, or it reports the text, as it is after
    the substitution of a colour name, on stderr and returns the zero
    pixel.  It yields no translucent colour other than the zero pixel. *)
Theorem ParseColor_outcome (host : byte_order) (html_colors : list html_color)
    (color : string) :
  (snd (ParseColor host html_colors (Some color)) = None
   /\ is_u32 (fst (ParseColor host html_colors (Some color)))
   /\ chan_a host (fst (ParseColor host html_colors (Some color))) = 255)
  \/ (fst (ParseColor host html_colors (Some color)) = to_rgba host 0 0 0 0
      /\ snd (ParseColor host html_colors (Some color))
         = Some ("Couldn't parse color '" +:+ named_color html_colors color
                 +:+ "'" +:+ String "010" "")).
Proof.
  unfold ParseColor.
  destruct (scan3 (named_color html_colors color) "#%02x%02x%02x")
    as [[[r g] b]|];
    [left; simpl; auto using to_rgba_u32, chan_a_to_rgba|].
  destruct (scan3 (named_color html_colors color) "rgb(%d, %d, %d)")
    as [[[r g] b]|];
    [left; simpl; auto using to_rgba_u32, chan_a_to_rgba|].
  destruct (scan3 (named_color html_colors color) "rgb(0x%x, 0x%x, 0x%x)")
    as [[[r g] b]|];
    [left; simpl; auto using to_rgba_u32, chan_a_to_rgba|].
  right. simpl. auto.
Qed.

(** X19: a null pointer gives the zero pixel and no diagnostic, but the
    empty text is not null: with a table that has no empty name it matches
    none of the patterns, so the zero pixel comes with the diagnostic
    "Couldn't parse color ''". *)
Theorem ParseColor_null_and_empty (host : byte_order)
    (html_colors : list html_color) :
  ParseColor host html_colors None = (to_rgba host 0 0 0 0, None)
  /\ (table_ok html_colors ->
      ParseColor host html_colors (Some "")
      = (to_rgba host 0 0 0 0,
         Some ("Couldn't parse color ''" +:+ String "010" ""))).
Proof.
  split; [reflexivity|]. intros Hok. unfold ParseColor.
  rewrite named_color_unnamed; [reflexivity | assumption|].
  intros b Hne Hb. now apply strcasecmp_empty.
Qed.

Lemma ParseColor_null_and_empty_witness :
  table_ok html_colors_sample /\
  ParseColor BigEndian html_colors_sample None
  = (to_rgba BigEndian 0 0 0 0, None)
  /\ ParseColor BigEndian html_colors_sample (Some "")
     = (to_rgba BigEndian 0 0 0 0,
        Some ("Couldn't parse color ''" +:+ String "010" "")).
Proof.
  split; [exact table_ok_sample|].
  exact (conj (proj1 (ParseColor_null_and_empty BigEndian html_colors_sample))
           (proj2 (ParseColor_null_and_empty BigEndian html_colors_sample)
              table_ok_sample)).
Defined.

Lemma strcasecmp_same_lower a b :
  map tolower a = map tolower b -> strcasecmp a b = 0.
Proof.
  revert b. induction a as [|c a IH]; intros [|d b] H; try discriminate.
  - reflexivity.
  - simpl in H. injection H as Hc Ht. simpl.
    rewrite Hc, Z.eqb_refl. now apply IH.
Qed.

Lemma strcasecmp_zero_lower a b :
  Forall (fun c => code c <> 0) a -> Forall (fun c => code c <> 0) b ->
  strcasecmp a b = 0 -> map tolower a = map tolower b.
Proof.
  intros Ha. revert b. induction Ha as [|c a Hc Ha IH]; intros b Hb H.
  - destruct Hb as [|d b Hd _]; [reflexivity|].
    simpl in H. pose proof (tolower_pos d Hd). lia.
  - destruct Hb as [|d b Hd Hb].
    + simpl in H. pose proof (tolower_pos c Hc). lia.
    + simpl in H. destruct (Z.eqb_spec (tolower c) (tolower d)) as [E|E].
      * simpl. rewrite E. f_equal. now apply IH.
      * lia.
Qed.

(** X20: a colour name is looked up without regard to case and the first
    entry of the table, in its order, that has the name is used: the result
    is that of the entry's translation put through the numeric patterns,
    with no second look at the table. *)
Theorem ParseColor_named (host : byte_order)
    (before after : list html_color) (entry : html_color) (color : string) :
  c_string color ->
  Forall (fun e => c_string (name e)) before ->
  Forall (fun e => lower color <> lower (name e)) before ->
  lower color = lower (name entry) ->
  named_color (before ++ entry :: after) color = translation entry
  /\ ParseColor host (before ++ entry :: after) (Some color)
     = ParseColor host [] (Some (translation entry)).
Proof.
  intros Hc Hcs Hne Heq.
  assert (Hn : named_color (before ++ entry :: after) color
               = translation entry).
  { induction before as [|e es IH]; simpl.
    - now rewrite (strcasecmp_same_lower _ _ Heq).
    - inversion Hcs as [|? ? He Hes]; inversion Hne as [|? ? Hn Hns]; subst.
      destruct (Z.eqb_spec
                  (strcasecmp (list_ascii_of_string color)
                     (list_ascii_of_string (name e))) 0) as [E|_];
        [|now apply IH].
      exfalso. apply Hn. now apply strcasecmp_zero_lower. }
  split; [exact Hn|]. unfold ParseColor. now rewrite Hn.
Qed.

Lemma ParseColor_named_witness :
  (c_string "ReD"
   /\ Forall (fun e => c_string (name e))
        [mkColor "black" "#000000"; mkColor "blue" "#0000ff";
         mkColor "lime" "#00ff00"]
   /\ Forall (fun e => lower "ReD" <> lower (name e))
        [mkColor "black" "#000000"; mkColor "blue" "#0000ff";
         mkColor "lime" "#00ff00"]
   /\ lower "ReD" = lower (name (mkColor "red" "#ff0000"))) /\
  named_color html_colors_sample "ReD" = "#ff0000"
  /\ ParseColor LittleEndian html_colors_sample (Some "ReD")
     = ParseColor LittleEndian [] (Some "#ff0000").
Proof.
  assert (H1 : c_string "ReD") by (repeat constructor; discriminate).
  assert (H2 : Forall (fun e => c_string (name e))
                 [mkColor "black" "#000000"; mkColor "blue" "#0000ff";
                  mkColor "lime" "#00ff00"])
    by (repeat constructor; discriminate).
  assert (H3 : Forall (fun e => lower "ReD" <> lower (name e))
                 [mkColor "black" "#000000"; mkColor "blue" "#0000ff";
                  mkColor "lime" "#00ff00"])
    by (repeat constructor; discriminate).
  assert (H4 : lower "ReD" = lower (name (mkColor "red" "#ff0000")))
    by reflexivity.
  split; [exact (conj H1 (conj H2 (conj H3 H4)))|].
  exact (ParseColor_named LittleEndian
           [mkColor "black" "#000000"; mkColor "blue" "#0000ff";
            mkColor "lime" "#00ff00"]
           [mkColor "white" "#ffffff"] (mkColor "red" "#ff0000") "ReD"
           H1 H2 H3 H4).
Defined.

(** [%x] without a width on two hexadecimal digits that something other
    than a hexadecimal digit follows. *)
Lemma scan_int_hex_pair h l rest :
  isxdigit h = true -> isxdigit l = true ->
  match rest with [] => True | c :: _ => isxdigit c = false end ->
  scan_int ConvX None (h :: l :: rest) = ItemOk (hex2 h l) rest.
Proof.
  intros Hh Hl Hrest.
  destruct (not_sign h Hh) as [Hm Hp].
  pose proof (digit_val_xdigit h Hh) as Vh.
  pose proof (digit_val_xdigit l Hl) as Vl.
  assert (Hx : (tolower l =? 120) = false).
  { apply Z.eqb_neq. apply isxdigit_code in Hl.
    destruct (tolower_cases l) as [[? ->]|[? ->]]; lia. }
  assert (Hval : u32 (strtoul false (hex2 h l)) = hex2 h l).
  { unfold strtoul, hex2, ULONG_MAX.
    replace (2 ^ 64 - 1 <? 16 * digit_val h + digit_val l) with false
      by (symmetry; apply Z.ltb_ge; lia).
    unfold u32. apply Z.mod_small. lia. }
  assert (Hstop : forall acc, scan_digits 16 None acc 2 rest
                              = (acc, 2%nat, rest)).
  { intros acc. destruct rest as [|c r]; [reflexivity|].
    cbn [scan_digits width_left andb Z.eqb Pos.eqb]. now rewrite Hrest. }
  unfold scan_int. cbv beta iota zeta. rewrite Hm, Hp.
  cbn [orb width_left andb].
  destruct (Ascii.eqb h "0") eqn:Hz.
  - cbn [width_dec width_left andb]. rewrite Hx. cbn [andb].
    cbn [scan_digits width_left width_dec andb Z.eqb Pos.eqb].
    rewrite Hl. rewrite Hstop.
    rewrite <- Hval. unfold hex2. rewrite (digit_val_zero h Hz).
    reflexivity.
  - cbn [scan_digits width_left width_dec andb Z.eqb Pos.eqb].
    rewrite Hh.
    cbn [scan_digits width_left width_dec andb Z.eqb Pos.eqb].
    rewrite Hl. rewrite Hstop.
    rewrite <- Hval. unfold hex2. do 3 f_equal. lia.
Qed.

Lemma scan3_dec_not_hex_rgb s :
  scan3 (String "r" (String "g" (String "b" (String "(" (String "0"
          (String "x" s))))))
    "rgb(%d, %d, %d)" = None.
Proof. reflexivity. Qed.

Lemma no_xdigit_ahead_list s :
  no_xdigit_ahead s ->
  match list_ascii_of_string s with [] => True | c :: _ => isxdigit c = false end.
Proof. destruct s; simpl; auto. Qed.

Lemma skip_space_literal_0 rest : skip_space ("0"%char :: rest) = "0"%char :: rest.
Proof. reflexivity. Qed.

Lemma scan3_hex_rgb h1 h2 h3 h4 h5 h6 sp1 sp2 tail :
  isxdigit h1 = true -> isxdigit h2 = true -> isxdigit h3 = true ->
  isxdigit h4 = true -> isxdigit h5 = true -> isxdigit h6 = true ->
  blank sp1 -> blank sp2 -> no_xdigit_ahead tail ->
  scan3 ("rgb(0x" +:+ String h1 (String h2 ("," +:+ sp1 +:+ "0x"
           +:+ String h3 (String h4 ("," +:+ sp2 +:+ "0x"
           +:+ String h5 (String h6 tail))))))
    "rgb(0x%x, 0x%x, 0x%x)"
  = Some (hex2 h1 h2, hex2 h3 h4, hex2 h5 h6).
Proof.
  intros H1 H2 H3 H4 H5 H6 B1 B2 Ht. unfold scan3, sscanf, blank in *.
  rewrite format_hex_rgb.
  change ("rgb(0x" +:+ String h1 (String h2 ("," +:+ sp1 +:+ "0x"
           +:+ String h3 (String h4 ("," +:+ sp2 +:+ "0x"
           +:+ String h5 (String h6 tail))))))
    with (String "r" (String "g" (String "b" (String "(" (String "0"
            (String "x" (String h1 (String h2 (String ","
               (sp1 +:+ String "0" (String "x" (String h3 (String h4
                  (String "," (sp2 +:+ String "0" (String "x"
                     (String h5 (String h6 tail)))))))))))))))))).
  cbn [list_ascii_of_string scan].
  change (Ascii.eqb "r" "r") with true. change (Ascii.eqb "g" "g") with true.
  change (Ascii.eqb "b" "b") with true. change (Ascii.eqb "(" "(") with true.
  change (Ascii.eqb "0" "0") with true. change (Ascii.eqb "x" "x") with true.
  cbv iota.
  rewrite !list_ascii_app. cbn [list_ascii_of_string].
  rewrite (skip_space_digit h1) by assumption.
  rewrite scan_int_hex_pair by (assumption || reflexivity).
  cbn [scan app]. change (Ascii.eqb "," ",") with true. cbv iota.
  rewrite skip_space_blank, skip_space_literal_0 by assumption.
  change (Ascii.eqb "0" "0") with true. change (Ascii.eqb "x" "x") with true.
  cbv iota.
  rewrite (skip_space_digit h3) by assumption.
  rewrite scan_int_hex_pair by (assumption || reflexivity).
  cbn [scan app]. change (Ascii.eqb "," ",") with true. cbv iota.
  rewrite !list_ascii_app. cbn [list_ascii_of_string].
  rewrite skip_space_blank, skip_space_literal_0 by assumption.
  change (Ascii.eqb "0" "0") with true. change (Ascii.eqb "x" "x") with true.
  cbv iota.
  rewrite (skip_space_digit h5) by assumption.
  rewrite scan_int_hex_pair
    by (try assumption; now apply no_xdigit_ahead_list).
  cbn [scan app].
  destruct (list_ascii_of_string tail) as [|c t]; [reflexivity|].
  destruct (Ascii.eqb c ")"); reflexivity.
Qed.

(** X21: a text [rgb(0xRR, 0xGG, 0xBB)] with two hexadecimal digits in each
    place is refused by the decimal pattern, which reads the 0 and then
    meets the x, and is read by the third pattern: the result is the opaque
    pixel with these three bytes and no diagnostic. *)
Theorem ParseColor_hex_rgb (host : byte_order) (html_colors : list html_color)
    (h1 h2 h3 h4 h5 h6 : ascii) (sp1 sp2 tail : string) :
  table_ok html_colors ->
  isxdigit h1 = true -> isxdigit h2 = true -> isxdigit h3 = true ->
  isxdigit h4 = true -> isxdigit h5 = true -> isxdigit h6 = true ->
  blank sp1 -> blank sp2 -> no_xdigit_ahead tail ->
  ParseColor host html_colors
    (Some ("rgb(0x" +:+ String h1 (String h2 ("," +:+ sp1 +:+ "0x"
             +:+ String h3 (String h4 ("," +:+ sp2 +:+ "0x"
             +:+ String h5 (String h6 tail)))))))
  = (to_rgba host (hex2 h1 h2) (hex2 h3 h4) (hex2 h5 h6) 255, None)
  /\ mem_bytes host (to_rgba host (hex2 h1 h2) (hex2 h3 h4) (hex2 h5 h6) 255)
     = [hex2 h1 h2; hex2 h3 h4; hex2 h5 h6; 255].
Proof.
  intros Hok H1 H2 H3 H4 H5 H6 B1 B2 Ht. split.
  - unfold ParseColor. rewrite named_color_unnamed; [|assumption|].
    + rewrite scan3_hex_rgb by assumption.
      set (rest := String h1 (String h2 ("," +:+ sp1 +:+ "0x"
             +:+ String h3 (String h4 ("," +:+ sp2 +:+ "0x"
             +:+ String h5 (String h6 tail)))))).
      change ("rgb(0x" +:+ rest)
        with (String "r" (String "g" (String "b" (String "(" (String "0"
                (String "x" rest)))))).
      rewrite scan3_dec_not_hex_rgb.
      change (String "r" (String "g" (String "b" (String "(" (String "0"
                (String "x" rest))))))
        with (String "r" ("gb(0x" +:+ rest)).
      now rewrite scan3_hex_not_rgb.
    + intros bn _ Hbn. rewrite list_ascii_app.
      change (list_ascii_of_string "rgb(0x")
        with (["r"; "g"; "b"] ++ ["("; "0"; "x"])%char.
      rewrite <- app_assoc.
      apply strcasecmp_not_letters; auto; repeat constructor; discriminate.
  - rewrite mem_bytes_to_rgba.
    pose proof (digit_val_xdigit h1 H1). pose proof (digit_val_xdigit h2 H2).
    pose proof (digit_val_xdigit h3 H3). pose proof (digit_val_xdigit h4 H4).
    pose proof (digit_val_xdigit h5 H5). pose proof (digit_val_xdigit h6 H6).
    rewrite !u8_small by (unfold is_u8, hex2; lia). reflexivity.
Qed.

Lemma ParseColor_hex_rgb_witness :
  (table_ok html_colors_sample
   /\ isxdigit "f" = true /\ isxdigit "F" = true /\ isxdigit "0" = true
   /\ isxdigit "0" = true /\ isxdigit "8" = true /\ isxdigit "0" = true
   /\ blank " " /\ blank " " /\ no_xdigit_ahead ")") /\
  ParseColor LittleEndian html_colors_sample (Some "rgb(0xfF, 0x00, 0x80)")
  = (to_rgba LittleEndian (hex2 "f" "F") (hex2 "0" "0") (hex2 "8" "0") 255,
     None)
  /\ mem_bytes LittleEndian
       (to_rgba LittleEndian (hex2 "f" "F") (hex2 "0" "0") (hex2 "8" "0") 255)
     = [hex2 "f" "F"; hex2 "0" "0"; hex2 "8" "0"; 255].
Proof.
  assert (B : blank " ") by (repeat constructor).
  assert (T : no_xdigit_ahead ")") by reflexivity.
  split; [repeat split; try reflexivity; try exact B; exact table_ok_sample|].
  exact (ParseColor_hex_rgb LittleEndian html_colors_sample
           "f" "F" "0" "0" "8" "0" " " " " ")" table_ok_sample
           eq_refl eq_refl eq_refl eq_refl eq_refl eq_refl B B T).
Defined.

(** X6: the pixel format round-trips through the decoding the compositor
    uses, on either host.  Decoding a packed pixel ([le32toh], then shifts
    and masks) gives the four arguments of to_rgba modulo 256, and packing
    the channels decoded from any 32-bit pixel value gives that value. *)
Theorem to_rgba_decode_roundtrip (host : byte_order) (r g b a v : Z) :
  (let col := le32toh host (to_rgba host r g b a) in
   [Z.land col 255; Z.land (Z.shiftr col 8) 255;
    Z.land (Z.shiftr col 16) 255; Z.shiftr col 24]
   = [r mod 256; g mod 256; b mod 256; a mod 256])
  /\ (is_u32 v ->
      let col := le32toh host v in
      to_rgba host (Z.land col 255) (Z.land (Z.shiftr col 8) 255)
        (Z.land (Z.shiftr col 16) 255) (Z.shiftr col 24)
      = v).
Proof.
  assert (Hdec : forall w, is_u32 w ->
            [Z.land (le32toh host w) 255;
             Z.land (Z.shiftr (le32toh host w) 8) 255;
             Z.land (Z.shiftr (le32toh host w) 16) 255;
             Z.shiftr (le32toh host w) 24]
            = mem_bytes host w).
  { intros w Hw. rewrite <- le32toh_bytes.
    rewrite (shiftr_24_byte (le32toh host w)) by now apply le32toh_u32.
    unfold byte_n. now rewrite Z.shiftr_0_r. }
  split; cbv zeta.
  - rewrite Hdec by apply to_rgba_u32. apply mem_bytes_to_rgba.
  - intros Hv. pose proof (Hdec v Hv) as H.
    assert (Hm : mem_bytes host v
                 = [chan_r host v; chan_g host v; chan_b host v;
                    chan_a host v]) by (destruct host; reflexivity).
    rewrite Hm in H. injection H as -> -> -> ->.
    now apply to_rgba_of_channels.
Qed.

Lemma to_rgba_decode_roundtrip_witness :
  is_u32 305419896 /\
  (let col := le32toh BigEndian (to_rgba BigEndian 300 2 3 4) in
   [Z.land col 255; Z.land (Z.shiftr col 8) 255;
    Z.land (Z.shiftr col 16) 255; Z.shiftr col 24]
   = [300 mod 256; 2 mod 256; 3 mod 256; 4 mod 256])
  /\ (let col := le32toh BigEndian 305419896 in
      to_rgba BigEndian (Z.land col 255) (Z.land (Z.shiftr col 8) 255)
        (Z.land (Z.shiftr col 16) 255) (Z.shiftr col 24)
      = 305419896).
Proof.
  assert (H : is_u32 305419896) by (unfold is_u32; lia).
  split; [exact H|].
  exact (conj (proj1 (to_rgba_decode_roundtrip BigEndian 300 2 3 4 305419896))
           (proj2 (to_rgba_decode_roundtrip BigEndian 300 2 3 4 305419896) H)).
Defined.

(** ** Short hexadecimal forms *)

(** [%02x] on a single hexadecimal digit that no other follows.  After a
    0 the conversion also takes an x, so what is left of the input is
    not always what came after the digit. *)
Lemma scan_int_hex1 h rest :
  isxdigit h = true ->
  match rest with [] => True | c :: _ => isxdigit c = false end ->
  exists rest',
    scan_int ConvX (Some 2%nat) (h :: rest) = ItemOk (digit_val h) rest'
    /\ (rest = [] -> rest' = []).
Proof.
  intros Hh Hrest.
  destruct (not_sign h Hh) as [Hm Hp].
  pose proof (digit_val_xdigit h Hh) as Vh.
  assert (Hval : u32 (strtoul false (digit_val h)) = digit_val h).
  { unfold strtoul, ULONG_MAX.
    replace (2 ^ 64 - 1 <? digit_val h) with false
      by (symmetry; apply Z.ltb_ge; lia).
    unfold u32. apply Z.mod_small. lia. }
  assert (Hstop : forall acc n, scan_digits 16 (Some 1%nat) acc n rest
                                = (acc, n, rest)).
  { intros acc n. destruct rest as [|c r]; [reflexivity|].
    cbn [scan_digits width_left andb Z.eqb Pos.eqb]. now rewrite Hrest. }
  unfold scan_int. cbv beta iota zeta. rewrite Hm, Hp.
  cbn [orb width_left andb].
  destruct (Ascii.eqb h "0") eqn:Hz.
  - rewrite (digit_val_zero h Hz) in *.
    destruct rest as [|cx t']; [exists []; split; [reflexivity | auto]|].
    cbn [width_dec width_left andb Z.eqb Pos.eqb].
    destruct (tolower cx =? 120).
    + cbn [andb]. cbv iota. exists t'. split; [|discriminate].
      destruct t'; reflexivity.
    + cbn [andb]. cbv iota. rewrite Hstop. exists (cx :: t').
      split; [reflexivity | discriminate].
  - cbn [scan_digits width_left width_dec andb Z.eqb Pos.eqb].
    rewrite Hh. rewrite Hstop. exists rest. split; [|auto].
    f_equal. replace (0 * 16 + digit_val h) with (digit_val h) by lia.
    exact Hval.
Qed.

Lemma scan3_not_rgb s :
  scan3 (String "#" s) "rgb(%d, %d, %d)" = None
  /\ scan3 (String "#" s) "rgb(0x%x, 0x%x, 0x%x)" = None.
Proof. split; reflexivity. Qed.

Lemma scan3_five_hex h1 h2 h3 h4 h5 tail :
  isxdigit h1 = true -> isxdigit h2 = true -> isxdigit h3 = true ->
  isxdigit h4 = true -> isxdigit h5 = true -> no_xdigit_ahead tail ->
  scan3 (String "#" (String h1 (String h2 (String h3 (String h4
           (String h5 tail))))))
    "#%02x%02x%02x"
  = Some (hex2 h1 h2, hex2 h3 h4, digit_val h5).
Proof.
  intros H1 H2 H3 H4 H5 Ht. unfold scan3, sscanf.
  rewrite format_hex. cbn [list_ascii_of_string scan].
  change (Ascii.eqb "#" "#") with true. cbv iota.
  rewrite (skip_space_digit h1) by assumption.
  rewrite scan_int_hex2 by assumption. cbn [scan app].
  rewrite (skip_space_digit h3) by assumption.
  rewrite scan_int_hex2 by assumption. cbn [scan app].
  rewrite (skip_space_digit h5) by assumption.
  destruct (scan_int_hex1 h5 (list_ascii_of_string tail) H5
              (no_xdigit_ahead_list tail Ht)) as (rest' & -> & _).
  reflexivity.
Qed.

(** X22: the first pattern does not insist on six digits.  A [#] with
    five hexadecimal digits, not followed by a sixth, parses too: the
    first four give red and green and the fifth alone gives blue. *)
Theorem ParseColor_five_digit_hex (host : byte_order)
    (html_colors : list html_color) (h1 h2 h3 h4 h5 : ascii) (tail : string) :
  table_ok html_colors ->
  isxdigit h1 = true -> isxdigit h2 = true -> isxdigit h3 = true ->
  isxdigit h4 = true -> isxdigit h5 = true -> no_xdigit_ahead tail ->
  ParseColor host html_colors
    (Some (String "#" (String h1 (String h2 (String h3 (String h4
             (String h5 tail)))))))
  = (to_rgba host (hex2 h1 h2) (hex2 h3 h4) (digit_val h5) 255, None).
Proof.
  intros Hok H1 H2 H3 H4 H5 Ht.
  unfold ParseColor. rewrite named_color_unnamed; [|assumption|].
  - now rewrite scan3_five_hex.
  - intros b _ Hb. cbn [list_ascii_of_string].
    apply (strcasecmp_not_letters [] "#"); auto; discriminate.
Qed.

Lemma ParseColor_five_digit_hex_witness :
  (table_ok html_colors_sample
   /\ isxdigit "1" = true /\ isxdigit "2" = true /\ isxdigit "3" = true
   /\ isxdigit "4" = true /\ isxdigit "5" = true /\ no_xdigit_ahead "") /\
  ParseColor LittleEndian html_colors_sample (Some "#12345")
  = (to_rgba LittleEndian (hex2 "1" "2") (hex2 "3" "4") (digit_val "5") 255,
     None).
Proof.
  split; [repeat split; try reflexivity; exact table_ok_sample|].
  exact (ParseColor_five_digit_hex LittleEndian html_colors_sample
           "1" "2" "3" "4" "5" "" table_ok_sample
           eq_refl eq_refl eq_refl eq_refl eq_refl I).
Defined.

Lemma scan_int_hex1_end h :
  isxdigit h = true ->
  scan_int ConvX (Some 2%nat) [h] = ItemOk (digit_val h) [].
Proof.
  intros Hh. destruct (scan_int_hex1 h [] Hh I) as (rest' & E & Hnil).
  now rewrite E, Hnil.
Qed.

Lemma scan3_short_hex ds :
  Forall (fun c => isxdigit c = true) ds -> (length ds <= 4)%nat ->
  scan3 (String "#" (string_of_list_ascii ds)) "#%02x%02x%02x" = None.
Proof.
  intros Hds Hlen. unfold scan3, sscanf.
  rewrite format_hex. cbn [list_ascii_of_string scan].
  change (Ascii.eqb "#" "#") with true. cbv iota.
  rewrite list_ascii_of_string_of_list_ascii.
  destruct ds as [|a ds]; [reflexivity|].
  inversion Hds as [|? ? Ha Hds1]; subst.
  rewrite (skip_space_digit a) by assumption.
  destruct ds as [|b ds].
  { rewrite scan_int_hex1_end by assumption. reflexivity. }
  inversion Hds1 as [|? ? Hb Hds2]; subst.
  rewrite scan_int_hex2 by assumption. cbn [scan app].
  destruct ds as [|c ds]; [reflexivity|].
  inversion Hds2 as [|? ? Hc Hds3]; subst.
  rewrite (skip_space_digit c) by assumption.
  destruct ds as [|d ds].
  { rewrite scan_int_hex1_end by assumption. reflexivity. }
  inversion Hds3 as [|? ? Hd Hds4]; subst.
  rewrite scan_int_hex2 by assumption. cbn [scan app].
  destruct ds as [|e ds]; [reflexivity|].
  simpl in Hlen. lia.
Qed.

(** X23: a [#] followed by at most four hexadecimal digits and the end of
    the text, such as the three-digit form [#rgb], is no colour: the third
    conversion finds nothing to read, so ParseColor returns the zero pixel
    and names the text in the diagnostic. *)
Theorem ParseColor_short_hex (host : byte_order)
    (html_colors : list html_color) (ds : list ascii) :
  table_ok html_colors ->
  Forall (fun c => isxdigit c = true) ds -> (length ds <= 4)%nat ->
  ParseColor host html_colors (Some (String "#" (string_of_list_ascii ds)))
  = (to_rgba host 0 0 0 0,
     Some ("Couldn't parse color '#" +:+ string_of_list_ascii ds
           +:+ "'" +:+ String "010" "")).
Proof.
  intros Hok Hds Hlen.
  unfold ParseColor. rewrite named_color_unnamed; [|assumption|].
  - rewrite scan3_short_hex by assumption.
    destruct (scan3_not_rgb (string_of_list_ascii ds)) as [-> ->].
    reflexivity.
  - intros b _ Hb. cbn [list_ascii_of_string].
    apply (strcasecmp_not_letters [] "#"); auto; discriminate.
Qed.

Lemma ParseColor_short_hex_witness :
  (table_ok html_colors_sample
   /\ Forall (fun c => isxdigit c = true) ["f"; "0"; "0"]%char
   /\ (length ["f"; "0"; "0"]%char <= 4)%nat) /\
  ParseColor BigEndian html_colors_sample (Some "#f00")
  = (to_rgba BigEndian 0 0 0 0,
     Some ("Couldn't parse color '#" +:+ "f00" +:+ "'" +:+ String "010" "")).
Proof.
  assert (H1 : Forall (fun c => isxdigit c = true) ["f"; "0"; "0"]%char)
    by (repeat constructor).
  assert (H2 : (length ["f"; "0"; "0"]%char <= 4)%nat) by (simpl; lia).
  split; [exact (conj table_ok_sample (conj H1 H2))|].
  exact (ParseColor_short_hex BigEndian html_colors_sample
           ["f"; "0"; "0"]%char table_ok_sample H1 H2).
Defined.

(** X24: a parsed colour is the same sequence of bytes on either host, and
    so is the diagnostic: the host's byte order shows in the 32-bit value
    that ParseColor returns, not in what is stored for it. *)
Theorem ParseColor_host_independent (host host' : byte_order)
    (html_colors : list html_color) (color : option string) :
  mem_bytes host (fst (ParseColor host html_colors color))
  = mem_bytes host' (fst (ParseColor host' html_colors color))
  /\ snd (ParseColor host html_colors color)
     = snd (ParseColor host' html_colors color).
Proof.
  unfold ParseColor. destruct color as [color|];
    [|simpl; now rewrite !mem_bytes_to_rgba].
  destruct (scan3 (named_color html_colors color) "#%02x%02x%02x")
    as [[[r g] b]|]; [simpl; now rewrite !mem_bytes_to_rgba|].
  destruct (scan3 (named_color html_colors color) "rgb(%d, %d, %d)")
    as [[[r g] b]|]; [simpl; now rewrite !mem_bytes_to_rgba|].
  destruct (scan3 (named_color html_colors color) "rgb(0x%x, 0x%x, 0x%x)")
    as [[[r g] b]|]; simpl; now rewrite !mem_bytes_to_rgba.
Qed.

(** ** A pattern that is not opaque *)

Lemma bg_choice_no_pattern host bg pat :
  is_u32 pat -> chan_a host pat <> 255 ->
  bg_choice host bg pat
  = [linear_of (le32toh host bg); linear_of (le32toh host bg)].
Proof.
  intros Hp Ha. unfold bg_choice. rewrite le32toh_alpha by assumption.
  now destruct (Z.eqb_spec (chan_a host pat) 255).
Qed.

(** X25: a pattern whose alpha is not 255 has no part in the result: the
    call does the same for any two such patterns, whatever their colours,
    on any store and with any background, because both entries of
    [bg_choice] are then the background. *)
Theorem AlphaComposeBackground_pattern_unused
    (host : byte_order) (fb : Framebuffer) (bgcolor pattern_col pattern_col' : Z) :
  is_u32 pattern_col -> is_u32 pattern_col' ->
  chan_a host pattern_col <> 255 -> chan_a host pattern_col' <> 255 ->
  AlphaComposeBackground host fb bgcolor pattern_col
  = AlphaComposeBackground host fb bgcolor pattern_col'.
Proof.
  intros Hp Hp' Ha Ha'. unfold AlphaComposeBackground.
  now rewrite !bg_choice_no_pattern by assumption.
Qed.

Lemma AlphaComposeBackground_pattern_unused_witness :
  (is_u32 0 /\ is_u32 2164195327
   /\ chan_a LittleEndian 0 <> 255 /\ chan_a LittleEndian 2164195327 <> 255) /\
  AlphaComposeBackground LittleEndian (mkFramebuffer 2 1 [0; 2164260608])
    4294967295 0
  = AlphaComposeBackground LittleEndian (mkFramebuffer 2 1 [0; 2164260608])
      4294967295 2164195327.
Proof.
  assert (H1 : is_u32 0) by (unfold is_u32; lia).
  assert (H2 : is_u32 2164195327) by (unfold is_u32; lia).
  assert (H3 : chan_a LittleEndian 0 <> 255) by (vm_compute; discriminate).
  assert (H4 : chan_a LittleEndian 2164195327 <> 255)
    by (vm_compute; discriminate).
  split; [exact (conj H1 (conj H2 (conj H3 H4)))|].
  exact (AlphaComposeBackground_pattern_unused LittleEndian
           (mkFramebuffer 2 1 [0; 2164260608]) 4294967295 0 2164195327
           H1 H2 H3 H4).
Defined.
